(** * Kitchen multitask environment (d4rl/kitchen/adept_envs/franka/kitchen_multitask_v0.py)

    A shallow embedding of the actuation-and-observation layer of [KitchenV0]
    and [KitchenTaskRelaxV1], and the properties of it that the design
    document states.

    Conventions of the embedding.
    - A numpy [float64] (and a Python [float]) is a primitive binary64
      [float]; [+], [*], [/] and [abs] are the IEEE operations, so rounding,
      signed zeros and NaN are those of the program.
    - A one-dimensional array is a [list]; an [(n,3)] array is a list of
      [vec3] rows and an [(n,4)] array a list of [quat] rows.
    - numpy indexing is [np_get] / [np_set]: a negative index counts from the
      end and an index out of range raises [IndexError].
    - A Python exception is the [Raise] case of [result]; the state reached
      before the exception is dropped.
    - What the file imports and cannot be read here (the physics step, the
      robot's sensor read-out, [np.mean], [round], the controller
      constructor, the constant [EQ_WELD]) is a Section variable. *)

From Stdlib Require Import ZArith List Bool Lia Floats.
From stdpp Require Import base option list strings gmap.
Import ListNotations.

Set Warnings "-inexact-float,-clear-no-such-hyp".
Local Open Scope Z_scope.

(** ** Exceptions *)

Inductive exn : Set :=
| AssertionError
| IndexError
| ValueError
| KeyError
| ZeroDivisionError
| NotImplementedError.

Inductive result (A : Type) : Type :=
| Ok (a : A)
| Raise (e : exn).
Arguments Ok {A} a.
Arguments Raise {A} e.

#[global] Instance result_ret : MRet result := fun _ a => Ok a.
#[global] Instance result_bind : MBind result := fun _ _ f m =>
  match m with
  | Ok a => f a
  | Raise e => Raise e
  end.

(** [for x in l: acc = f(acc, x)], stopping at the first exception. *)
Fixpoint foldlM {A B : Type} (f : A → B → result A) (acc : A) (l : list B)
  : result A :=
  match l with
  | [] => Ok acc
  | x :: l' => acc' ← f acc x; foldlM f acc' l'
  end.

(** ** numpy indexing *)

(** The position that index [i] denotes in an axis of length [n]. *)
Definition np_index (n : nat) (i : Z) : result nat :=
  if (0 <=? i) && (i <? Z.of_nat n) then Ok (Z.to_nat i)
  else if (- Z.of_nat n <=? i) && (i <? 0) then Ok (Z.to_nat (Z.of_nat n + i))
  else Raise IndexError.

(** [l[i]] *)
Definition np_get {A : Type} (l : list A) (i : Z) : result A :=
  k ← np_index (length l) i;
  match l !! k with
  | Some x => Ok x
  | None => Raise IndexError
  end.

(** [l[i] = v] *)
Definition np_set {A : Type} (l : list A) (i : Z) (v : A) : result (list A) :=
  k ← np_index (length l) i;
  Ok (<[k:=v]> l).

(** ** Vectors *)

Definition vec3 : Set := float * float * float.
Definition quat : Set := float * float * float * float.

Definition vec3_add (p d : vec3) : vec3 :=
  let '(px, py, pz) := p in
  let '(dx, dy, dz) := d in
  ((px + dx)%float, (py + dy)%float, (pz + dz)%float).

(** [a + b] for [a] of shape [(k,3)] and [b] of shape [(n,3)], stored back
    with [a[:] = ...]: the shapes must agree, or [b] is one row that is
    added to every row of [a]; in every other case either the sum or the
    store raises [ValueError]. *)
Definition np_iadd_rows (a b : list vec3) : result (list vec3) :=
  if Nat.eqb (length a) (length b) then Ok (zip_with vec3_add a b)
  else match b with
       | [d] => Ok (map (fun p => vec3_add p d) a)
       | _ => Raise ValueError
       end.

(** ** The simulator state: [sim.model] and [sim.data] *)

Record Model : Set := {
  nmocap : nat;
  eq_type : option (list Z);
  eq_obj1id : option (list Z);
  eq_obj2id : option (list Z);
  body_mocapid : list Z;
  actuator_biastype : list Z;
  actuator_trnid : list (Z * Z);
  jnt_qposadr : list Z
}.

Record Data : Set := {
  ctrl : option (list float);
  qpos : list float;
  mocap_pos : list vec3;
  mocap_quat : list quat;
  body_xpos : list vec3;
  body_xquat : list quat
}.

Record Sim : Set := {
  model : Model;
  data : Data
}.

Definition set_ctrl (d : Data) (c : list float) : Data :=
  {| ctrl := Some c; qpos := qpos d;
     mocap_pos := mocap_pos d; mocap_quat := mocap_quat d;
     body_xpos := body_xpos d; body_xquat := body_xquat d |}.

Definition set_mocap_pos (d : Data) (p : list vec3) : Data :=
  {| ctrl := ctrl d; qpos := qpos d;
     mocap_pos := p; mocap_quat := mocap_quat d;
     body_xpos := body_xpos d; body_xquat := body_xquat d |}.

Definition set_mocap_quat (d : Data) (q : list quat) : Data :=
  {| ctrl := ctrl d; qpos := qpos d;
     mocap_pos := mocap_pos d; mocap_quat := q;
     body_xpos := body_xpos d; body_xquat := body_xquat d |}.

Definition set_data (sim : Sim) (d : Data) : Sim :=
  {| model := model sim; data := d |}.

(** ** [ctrl_set_action] *)

(** One iteration of the loop of [ctrl_set_action]: the body for index [i],
    on the control array [c]. *)
Definition ctrl_set_one (m : Model) (qp action : list float)
    (c : list float) (i : nat) : result (list float) :=
  bt ← np_get (actuator_biastype m) (Z.of_nat i);
  if bt =? 0 then
    a ← np_get action (Z.of_nat i);
    np_set c (Z.of_nat i) a
  else
    tr ← np_get (actuator_trnid m) (Z.of_nat i);
    idx ← np_get (jnt_qposadr m) (fst tr);
    q ← np_get qp idx;
    a ← np_get action (Z.of_nat i);
    np_set c (Z.of_nat i) (q + a)%float.

(** [np.split(action, (k,))]: the pair [(action[:k], action[k:])]. *)
Definition np_split {A : Type} (action : list A) (k : nat)
  : list A * list A :=
  (take k action, drop k action).

(** [ctrl_set_action] (lines 126-138).  [ctrl] is never aliased with
    [qpos], so the loop reads the joint positions the call started with. *)
Definition ctrl_set_action (sim : Sim) (action : list float) : result Sim :=
  let action :=
    if (0 <? nmocap (model sim))%nat
    then snd (np_split action (nmocap (model sim) * 7))
    else action in
  match ctrl (data sim) with
  | Some c =>
      c' ← foldlM (ctrl_set_one (model sim) (qpos (data sim)) action) c
                  (seq 0 (length action));
      Ok (set_data sim (set_ctrl (data sim) c'))
  | None => Ok sim
  end.

(** ** Mocap targets: [reset_mocap2body_xpos] and [mocap_set_action] *)

Section Mocap.

(** [mujoco_py.const.EQ_WELD], the type code of a weld constraint. *)
Variable EQ_WELD : Z.

(** Lines 187-196: the pair [(mocap_id, body_idx)] of a weld between
    [obj1_id] and [obj2_id], with the assertion that ends the search. *)
Definition weld_endpoints (m : Model) (obj1_id obj2_id : Z) : result (Z * Z) :=
  mocap_id ← np_get (body_mocapid m) obj1_id;
  r ← (if negb (mocap_id =? -1)
       then (* obj1 is the mocap, obj2 is the welded body *)
         Ok (mocap_id, obj2_id)
       else (* obj2 is the mocap, obj1 is the welded body *)
         mocap_id ← np_get (body_mocapid m) obj2_id;
         Ok (mocap_id, obj1_id));
  if fst r =? -1 then Raise AssertionError else Ok r.

(** The body of the loop of [reset_mocap2body_xpos], for one constraint
    [(eq_type, obj1_id, obj2_id)]. *)
Definition reset_weld (m : Model) (d : Data) (w : Z * Z * Z) : result Data :=
  let '(ty, obj1_id, obj2_id) := w in
  if negb (ty =? EQ_WELD) then Ok d
  else
    r ← weld_endpoints m obj1_id obj2_id;
    let '(mocap_id, body_idx) := r in
    p ← np_get (body_xpos d) body_idx;
    pos ← np_set (mocap_pos d) mocap_id p;
    q ← np_get (body_xquat d) body_idx;
    qs ← np_set (mocap_quat d) mocap_id q;
    Ok (set_mocap_quat (set_mocap_pos d pos) qs).

(** [zip(a, b, c)] *)
Definition zip3 {A B C : Type} (a : list A) (b : list B) (c : list C)
  : list (A * B * C) :=
  zip (zip a b) c.

(** [reset_mocap2body_xpos] (lines 170-198): nothing is done when one of
    the three constraint arrays is [None]. *)
Definition reset_mocap2body_xpos (sim : Sim) : result Sim :=
  match eq_type (model sim), eq_obj1id (model sim), eq_obj2id (model sim) with
  | Some tys, Some o1, Some o2 =>
      d ← foldlM (reset_weld (model sim)) (data sim) (zip3 tys o1 o2);
      Ok (set_data sim d)
  | _, _, _ => Ok sim
  end.

(** [action.reshape(n, 7)] followed by the two column slices
    [action[:, :3]] and [action[:, 3:]], row by row. *)
Fixpoint rows7 (action : list float) : list (vec3 * quat) :=
  match action with
  | x :: y :: z :: a :: b :: c :: d :: rest =>
      ((x, y, z), (a, b, c, d)) :: rows7 rest
  | _ => []
  end.

Definition np_reshape7 (n : nat) (action : list float)
  : result (list (vec3 * quat)) :=
  if Nat.eqb (length action) (n * 7) then Ok (rows7 action)
  else Raise ValueError.

(** [mocap_set_action] (lines 140-158).  The last statement stores
    [mocap_quat] into itself. *)
Definition mocap_set_action (sim : Sim) (action : list float) : result Sim :=
  if (0 <? nmocap (model sim))%nat then
    let action := fst (np_split action (nmocap (model sim) * 7)) in
    rows ← np_reshape7 (nmocap (model sim)) action;
    let pos_delta := map fst rows in
    let quat_delta := map snd rows in
    sim ← reset_mocap2body_xpos sim;
    pos ← np_iadd_rows (mocap_pos (data sim)) pos_delta;
    let d := set_mocap_pos (data sim) pos in
    Ok (set_data sim (set_mocap_quat d (mocap_quat d)))
  else Ok sim.

(** ** [_set_action] *)

(** Lines 201-216: the 9-vector that [_set_action] builds from its argument
    and hands to [ctrl_set_action] and [mocap_set_action].  The first
    assertion asks for the shape [(4,)]; the second one, on the shape of
    the gripper pair, cannot fail. *)
Definition _set_action_encode (action : list float) : result (list float) :=
  match action with
  | [dx; dy; dz; grip] =>
      let pos_ctrl := map (fun x => (x * 0.05)%float) [dx; dy; dz] in
      let rot_ctrl := [1; 0; 1; 0]%float in
      let gripper_ctrl := [grip; grip] in
      Ok (pos_ctrl ++ rot_ctrl ++ gripper_ctrl)
  | _ => Raise AssertionError
  end.

(** [_set_action] (lines 200-220) *)
Definition _set_action (sim : Sim) (action : list float) : result Sim :=
  action ← _set_action_encode action;
  sim ← ctrl_set_action sim action;
  mocap_set_action sim action.

End Mocap.

(** ** The environment object *)

(** The two classes of the file; [_get_reward_n_score] is dispatched on it. *)
Inductive env_class : Set :=
| KitchenV0
| KitchenTaskRelaxV1.

(** [self.obs_dict] once [_get_obs] has filled it. *)
Record ObsDict : Set := {
  obs_t : float;
  obs_qp : list float;
  obs_qv : list float;
  obs_obj_qp : list float;
  obs_obj_qv : list float;
  obs_goal : list float
}.

(** [env_info] of [step]. *)
Record EnvInfo : Set := {
  info_time : float;
  info_score : float
}.

(** [np.clip(a, lo, hi)], element by element; a NaN stays a NaN. *)
Definition np_clip (a : list float) (lo hi : float) : list float :=
  map (fun x => if (x <? lo)%float then lo
                else if (hi <? x)%float then hi else x) a.

(** An element-wise binary operation on two one-dimensional arrays, with
    numpy's broadcasting: equal lengths, or one of the two has length 1. *)
Definition np_broadcast (f : float → float → float) (a b : list float)
  : result (list float) :=
  if Nat.eqb (length a) (length b) then Ok (zip_with f a b)
  else match a, b with
       | [x], _ => Ok (map (f x) b)
       | _, [y] => Ok (map (fun x => f x y) a)
       | _, _ => Raise ValueError
       end.

(** [KitchenTaskRelaxV1._get_reward_n_score] builds its dictionary by three
    stores into an empty one. *)
Definition reward_dict_relax : gmap string float :=
  <["r_total" := 0%float]>
    (<["bonus" := 0%float]>
      (<["true_reward" := 0%float]> ∅)).

(** [_get_reward_n_score] (line 223 in [KitchenV0], lines 380-386 in
    [KitchenTaskRelaxV1]); [obs_dict] is [None] for the empty dictionary. *)
Definition _get_reward_n_score (cls : env_class) (obs_dict : option ObsDict)
  : result (gmap string float * float) :=
  match cls with
  | KitchenV0 => Raise NotImplementedError
  | KitchenTaskRelaxV1 => Ok (reward_dict_relax, 0%float)
  end.

Section Environment.

Variable EQ_WELD : Z.

(** The state of [self.robot] and of [self.controller]: objects of
    [franka_robot] and of [robosuite.controllers]. *)
Variable Robot : Type.
Variable Controller : Type.

(** [self.sim.step()]: one tick of the physics engine. *)
Variable sim_step : Sim → Sim.

(** [self.robot.get_obs(self, robot_noise_ratio=r)]: the read-out
    [(t, qp, qv, obj_qp, obj_qv)], and the robot object afterwards. *)
Variable robot_get_obs :
  Robot → Sim → float →
  float * list float * list float * list float * list float * Robot.

(** [EndEffectorImpedanceController(self.sim, ...)] *)
Variable make_controller : Sim → Controller.

(** The attributes of the environment that the file reads or writes.
    [initializing] and [obs_dim] are set by the base class [RobotEnv], which
    is not part of the file; the others by [__init__] (lines 47-124). *)
Record Env : Type := {
  cls : env_class;
  sim : Sim;
  robot : Robot;
  controller : option Controller;
  initializing : bool;
  goal_concat : bool;
  obs_dict : option ObsDict;
  robot_noise_ratio : float;
  goal : list float;
  act_mid : list float;
  act_amp : list float;
  obs_dim : nat
}.

Definition set_sim (env : Env) (s : Sim) : Env :=
  {| cls := cls env; sim := s; robot := robot env;
     controller := controller env; initializing := initializing env;
     goal_concat := goal_concat env; obs_dict := obs_dict env;
     robot_noise_ratio := robot_noise_ratio env; goal := goal env;
     act_mid := act_mid env; act_amp := act_amp env; obs_dim := obs_dim env |}.

Definition set_goal (env : Env) (g : list float) : Env :=
  {| cls := cls env; sim := sim env; robot := robot env;
     controller := controller env; initializing := initializing env;
     goal_concat := goal_concat env; obs_dict := obs_dict env;
     robot_noise_ratio := robot_noise_ratio env; goal := g;
     act_mid := act_mid env; act_amp := act_amp env; obs_dim := obs_dim env |}.

Definition set_controller (env : Env) (c : Controller) : Env :=
  {| cls := cls env; sim := sim env; robot := robot env;
     controller := Some c; initializing := initializing env;
     goal_concat := goal_concat env; obs_dict := obs_dict env;
     robot_noise_ratio := robot_noise_ratio env; goal := goal env;
     act_mid := act_mid env; act_amp := act_amp env; obs_dim := obs_dim env |}.

Definition set_obs (env : Env) (o : ObsDict) (r : Robot) : Env :=
  {| cls := cls env; sim := sim env; robot := r;
     controller := controller env; initializing := initializing env;
     goal_concat := goal_concat env; obs_dict := Some o;
     robot_noise_ratio := robot_noise_ratio env; goal := goal env;
     act_mid := act_mid env; act_amp := act_amp env; obs_dim := obs_dim env |}.

(** [set_goal] (line 358) is the setter [set_goal] above;
    [_get_task_goal] (line 361): *)
Definition _get_task_goal (env : Env) : list float := goal env.

(** [_get_obs]: the environment with [obs_dict] rebuilt, and the value
    returned, which is [None] when [goal_concat] is false. *)
Definition _get_obs (env : Env) : Env * option (list float) :=
  let '(t, qp, qv, obj_qp, obj_qv, r) :=
    robot_get_obs (robot env) (sim env) (robot_noise_ratio env) in
  let o := {| obs_t := t; obs_qp := qp; obs_qv := qv;
              obs_obj_qp := obj_qp; obs_obj_qv := obj_qv;
              obs_goal := goal env |} in
  (set_obs env o r,
   if goal_concat env then Some (obs_qp o ++ obs_obj_qp o ++ obs_goal o)
   else None).

(** Lines 241-292 of [step]: everything before the call of [_set_action],
    with the value of [a] that the call receives. *)
Definition step_action (env : Env) (a : list float)
  : result (Env * list float) :=
  let a := np_clip a (-1) 1 in
  r ← (if negb (initializing env) then
         scaled ← np_broadcast PrimFloat.mul a (act_amp env);
         a ← np_broadcast PrimFloat.add (act_mid env) scaled;
         Ok (env, a)
       else
         let env := set_goal env (_get_task_goal env) in
         let env := set_controller env (make_controller (sim env)) in
         Ok (env, a));
  let '(env, a) := r in
  let a := [0; 1; 0; 0]%float in
  Ok (env, a).

(** [step] (lines 240-308): the environment afterwards and the tuple
    [(obs, reward_dict["r_total"], done, env_info)]. *)
Definition step (env : Env) (a : list float)
  : result (Env * (option (list float) * float * bool * EnvInfo)) :=
  r ← step_action env a;
  let '(env, a) := r in
  s ← _set_action EQ_WELD (sim env) a;
  let env := set_sim env (sim_step s) in
  let '(env, obs) := _get_obs env in
  rs ← _get_reward_n_score (cls env) (obs_dict env);
  let '(reward_dict, score) := rs in
  let done := false in
  o ← match obs_dict env with Some o => Ok o | None => Raise KeyError end;
  let env_info := {| info_time := obs_t o; info_score := score |} in
  r_total ← match reward_dict !! "r_total" with
            | Some r => Ok r
            | None => Raise KeyError
            end;
  Ok (env, (obs, r_total, done, env_info)).

End Environment.

(** ** [evaluate_success] *)

(** A recorded bonus is "bool-like": a Python [bool], or the float that
    [_get_reward_n_score] stores. *)
Inductive pyval : Set :=
| PyBool (b : bool)
| PyFloat (x : float).

(** [bool(v)] *)
Definition py_bool (v : pyval) : bool :=
  match v with
  | PyBool b => b
  | PyFloat x => negb (x =? 0)%float
  end.

(** A rollout: [path["env_infos"]["score"]] and
    [path["env_infos"]["rewards"]["bonus"]]. *)
Record Path : Set := {
  score : list float;
  bonus : list pyval
}.

(** The conversion of a Python [int] to a [float], correctly rounded. *)
Definition float_of_Z (z : Z) : float :=
  SF2Prim (binary_normalize prec emax z 0 false).

(** [np.sign] on a [float64]: -1, 0 or 1, and NaN for NaN. *)
Definition np_sign (x : float) : float :=
  (if 0 <? x then 1
   else if x <? 0 then -1
   else if x =? 0 then 0 else x)%float.

(** [x / n] for a float [x] and an int [n] *)
Definition py_truediv (x : float) (n : Z) : result float :=
  if n =? 0 then Raise ZeroDivisionError
  else Ok (x / float_of_Z n)%float.

(** [enumerate(l)] *)
Definition enumerate {A : Type} (l : list A) : list (nat * A) :=
  imap pair l.

Section Evaluation.

(** [np.mean] of a one-dimensional [float64] array, and the built-in
    [round(x, ndigits)] on a float. *)
Variable np_mean : list float → float.
Variable py_round : float → Z → float.

(** [evaluate_success] (lines 335-352) *)
Definition evaluate_success (paths : list Path) : result float :=
  (* score *)
  mean_score_per_rollout ←
    foldlM (fun arr ip => np_set arr (Z.of_nat (fst ip))
                                 (np_mean (score (snd ip))))
           (repeat 0%float (length paths)) (enumerate paths);
  let mean_score := np_mean mean_score_per_rollout in
  (* success percentage *)
  let num_paths := Z.of_nat (length paths) in
  num_success ←
    foldlM (fun n path => b ← np_get (bonus path) (-1);
                          Ok (n + Z.b2z (py_bool b)))
           0 paths;
  success_percentage ← py_truediv (float_of_Z num_success * 100)%float num_paths;
  (* fuse results *)
  Ok (np_sign mean_score *
      (1e6 * py_round success_percentage 2 + abs mean_score))%float.

(** The value that the design document gives for [evaluate_success], in its
    words: the mean over rollouts of the per-rollout mean score
    ([spec_mean_score]), the percentage of rollouts whose final-step bonus
    is truthy ([spec_success_percentage]), and their combination
    ([spec_evaluate_success]). *)

(** The final-step bonus of the rollout is truthy. *)
Definition final_bonus_truthy (p : Path) : bool :=
  match last (bonus p) with
  | Some v => py_bool v
  | None => false
  end.

Definition spec_mean_score (paths : list Path) : float :=
  np_mean (map (fun p => np_mean (score p)) paths).

Definition spec_success_percentage (paths : list Path) : float :=
  (100 * float_of_Z (Z.of_nat (length (filter final_bonus_truthy paths)))
   / float_of_Z (Z.of_nat (length paths)))%float.

Definition spec_evaluate_success (paths : list Path) : float :=
  (np_sign (spec_mean_score paths) *
   (1000000 * py_round (spec_success_percentage paths) 2
    + abs (spec_mean_score paths)))%float.

End Evaluation.

Arguments cls {Robot Controller} e.
Arguments sim {Robot Controller} e.
Arguments robot {Robot Controller} e.
Arguments controller {Robot Controller} e.
Arguments initializing {Robot Controller} e.
Arguments goal_concat {Robot Controller} e.
Arguments obs_dict {Robot Controller} e.
Arguments robot_noise_ratio {Robot Controller} e.
Arguments goal {Robot Controller} e.
Arguments act_mid {Robot Controller} e.
Arguments act_amp {Robot Controller} e.
Arguments obs_dim {Robot Controller} e.
Arguments set_goal {Robot Controller} env g.
Arguments _get_task_goal {Robot Controller} env.
Arguments _get_obs {Robot Controller} robot_get_obs env.
Arguments step_action {Robot Controller} make_controller env a.
Arguments step EQ_WELD {Robot Controller} sim_step robot_get_obs
  make_controller env a.

(** * The other methods of the file *)

(** ** [reset_mocap_welds] *)

(** [sim.model.eq_data]: one row of parameters per equality constraint, or
    [None] when the model has no constraint. *)
Definition EqData : Set := option (list (list float)).

(** The parameters of a weld with no offset: [[0, 0, 0, 1, 0, 0, 0]]. *)
Definition weld_identity : list float := [0; 0; 0; 1; 0; 0; 0]%float.

(** [row[:] = v]: the shapes must agree, or [v] has one entry, stored in
    every place. *)
Definition np_assign_row (row v : list float) : result (list float) :=
  if Nat.eqb (length v) (length row) then Ok v
  else match v with
       | [x] => Ok (map (fun _ => x) row)
       | _ => Raise ValueError
       end.

(** What a method returns or raises, when it may also raise the
    [TypeError] of subscripting [None]. *)
Inductive or_type_error (A : Type) : Type :=
| NoTypeError (a : A)
| TypeError.
Arguments NoTypeError {A} a.
Arguments TypeError {A}.

Section ResetMocapWelds.

Variable EQ_WELD : Z.

(** [sim.forward()], which reads the constraint parameters as well. *)
Variable sim_forward : Sim → EqData → Sim.

(** The body of the loop of [reset_mocap_welds] for row [i], with
    [eq_type] an array. *)
Definition reset_weld_row (tys : list Z) (rows : list (list float))
    (i : nat) : result (list (list float)) :=
  ty ← np_get tys (Z.of_nat i);
  if ty =? EQ_WELD then
    row ← np_get rows (Z.of_nat i);
    row' ← np_assign_row row weld_identity;
    np_set rows (Z.of_nat i) row'
  else Ok rows.

(** [reset_mocap_welds] (lines 160-168): the simulation and [eq_data]
    afterwards.  With [eq_type] missing, the first iteration subscripts
    [None]. *)
Definition reset_mocap_welds (sim : Sim) (eq_data : EqData)
  : or_type_error (result (Sim * EqData)) :=
  match eq_data with
  | Some rows =>
      if (0 <? nmocap (model sim))%nat then
        match eq_type (model sim), rows with
        | None, _ :: _ => TypeError
        | None, [] => NoTypeError (Ok (sim_forward sim eq_data, eq_data))
        | Some tys, _ =>
            NoTypeError
              (rows' ← foldlM (reset_weld_row tys) rows
                              (seq 0 (length rows));
               Ok (sim_forward sim (Some rows'), Some rows'))
        end
      else NoTypeError (Ok (sim_forward sim eq_data, eq_data))
  | None => NoTypeError (Ok (sim_forward sim eq_data, eq_data))
  end.

End ResetMocapWelds.

(** ** [grasp] and [rotate_ee] *)

Definition set_qpos (d : Data) (qp : list float) : Data :=
  {| ctrl := ctrl d; qpos := qp;
     mocap_pos := mocap_pos d; mocap_quat := mocap_quat d;
     body_xpos := body_xpos d; body_xquat := body_xquat d |}.

(** [qpos[i] -= x] *)
Definition qpos_isub (sim : Sim) (i : Z) (x : float) : result Sim :=
  q ← np_get (qpos (data sim)) i;
  qp ← np_set (qpos (data sim)) i (q - x)%float;
  Ok (set_data sim (set_qpos (data sim) qp)).

Section Grasp.

(** [self.sim.step()] *)
Variable sim_step : Sim → Sim.

(** [grasp] (lines 225-229), on [self.sim], for [self.skip = skip]. *)
Fixpoint grasp (skip : nat) (sim : Sim) : result Sim :=
  match skip with
  | O => Ok sim
  | S skip' =>
      sim ← qpos_isub sim 7 0.0003;
      sim ← qpos_isub sim 8 0.0003;
      grasp skip' (sim_step sim)
  end.

(** [rotate_ee] (lines 231-234) *)
Fixpoint rotate_ee (skip : nat) (sim : Sim) : result Sim :=
  match skip with
  | O => Ok sim
  | S skip' =>
      sim ← qpos_isub sim 6 0.01;
      rotate_ee skip' (sim_step sim)
  end.

End Grasp.

(** ** [reset_model] *)

Section ResetModel.

Variable Robot : Type.
Variable Controller : Type.

Variable robot_get_obs :
  Robot → Sim → float →
  float * list float * list float * list float * list float * Robot.

(** [self.robot.reset(self, reset_pos, reset_vel)]: the robot object and
    the simulation afterwards. *)
Variable robot_reset : Robot → Sim → list float → list float → Robot * Sim.

(** [self.sim.forward()] *)
Variable sim_forward : Sim → Sim.

Definition set_robot_sim (env : Env Robot Controller) (r : Robot) (s : Sim)
  : Env Robot Controller :=
  {| cls := cls env; sim := s; robot := r;
     controller := controller env; initializing := initializing env;
     goal_concat := goal_concat env; obs_dict := obs_dict env;
     robot_noise_ratio := robot_noise_ratio env; goal := goal env;
     act_mid := act_mid env; act_amp := act_amp env; obs_dim := obs_dim env |}.

(** [reset_model] (lines 327-333), for [self.init_qpos] and
    [self.init_qvel] as they are at the call. *)
Definition reset_model (init_qpos init_qvel : list float)
    (env : Env Robot Controller)
  : Env Robot Controller * option (list float) :=
  let reset_pos := init_qpos in
  let reset_vel := init_qvel in
  let '(r, s) := robot_reset (robot env) (sim env) reset_pos reset_vel in
  let env := set_robot_sim env r (sim_forward s) in
  let env := set_goal env (_get_task_goal env) in
  _get_obs robot_get_obs env.

End ResetModel.

Arguments set_robot_sim {Robot Controller} env r s.
Arguments reset_model {Robot Controller} robot_get_obs robot_reset
  sim_forward init_qpos init_qvel env.

(** ** [goal_space] *)

(** A [gym.spaces.Box]: its lower and its upper bounds.  gym keeps them
    as float32; they are written here as the binary64 numbers of the same
    value, which negation and absolute value preserve. *)
Record Box : Set := {
  low : list float;
  high : list float
}.

(** [self.observation_space] as [__init__] builds it (lines 122-124), for
    [self.obs_dim = n]. *)
Definition observation_space_init (n : nat) : Box :=
  let obs_upper := map (fun x => (8.0 * x)%float) (repeat 1%float n) in
  let obs_lower := map PrimFloat.opp obs_upper in
  {| low := obs_lower; high := obs_upper |}.

(** [goal_space] (lines 365-368); [Box(low=l, high=h, shape=(k,))] has the
    bounds [l] and [h] in each of its [k] places. *)
Definition goal_space (observation_space : Box) : result Box :=
  let len_obs := length (low observation_space) in
  l0 ← np_get (low observation_space) 0;
  let env_lim := abs l0 in
  Ok {| low := repeat (- env_lim)%float (len_obs / 2);
        high := repeat env_lim (len_obs / 2) |}.

(** * The vocabulary of the statements *)

(** ** Numbers *)

(** Two floats are the same number: the same float, or equal for [==]
    (which identifies [+0.0] and [-0.0]). *)
Definition float_same (a b : float) : Prop :=
  a = b ∨ (a =? b)%float = true.

Definition neg_zero : float := (-0)%float.




(** ** Actuators *)

(** The metadata that [ctrl_set_action] reads for actuator [i] is in range:
    its bias type and, for a position actuator, its joint, the joint's
    address in [qpos] and the position stored there. *)
Definition actuator_ok (m : Model) (qp : list float) (i : nat) : Prop :=
  ∃ bt, actuator_biastype m !! i = Some bt ∧
    (bt ≠ 0 →
     ∃ tr idx q, actuator_trnid m !! i = Some tr ∧
       np_get (jnt_qposadr m) (fst tr) = Ok idx ∧ np_get qp idx = Ok q).

(** What the loop of [ctrl_set_action] leaves in slot [i] of [ctrl], for
    the command entry [a]. *)
Definition dispatched (m : Model) (qp : list float) (a : float)
    (c' : list float) (i : nat) : Prop :=
  ∃ bt, actuator_biastype m !! i = Some bt ∧
    if bt =? 0 then c' !! i = Some a
    else ∃ tr idx q, actuator_trnid m !! i = Some tr ∧
           np_get (jnt_qposadr m) (fst tr) = Ok idx ∧ np_get qp idx = Ok q ∧
           c' !! i = Some (q + a)%float.

(** ** Welds and targets *)

(** Body [o] is a mocap body, with target handle [id]. *)
Definition is_target (m : Model) (o id : Z) : Prop :=
  np_get (body_mocapid m) o = Ok id ∧ id ≠ -1.

(** Body [o] is a physical body: its [body_mocapid] is [-1]. *)
Definition not_target (m : Model) (o : Z) : Prop :=
  np_get (body_mocapid m) o = Ok (-1).

(** The weld between [o1] and [o2] ties target [id] to body [body]: the
    first endpoint is the target, or it is not and the second one is. *)
Definition resolves (m : Model) (o1 o2 id body : Z) : Prop :=
  (is_target m o1 id ∧ body = o2) ∨
  (not_target m o1 ∧ is_target m o2 id ∧ body = o1).

(** One endpoint of the weld between [o1] and [o2] is a mocap body. *)
Definition has_target (m : Model) (o1 o2 : Z) : Prop :=
  (∃ id, is_target m o1 id) ∨ (∃ id, is_target m o2 id).

(** The constraints of the model, as the loop of [reset_mocap2body_xpos]
    sees them; none if one of the three arrays is missing. *)
Definition constraints (m : Model) : list (Z * Z * Z) :=
  match eq_type m, eq_obj1id m, eq_obj2id m with
  | Some tys, Some o1s, Some o2s => zip3 tys o1s o2s
  | _, _, _ => []
  end.

(** Every weld among the constraints has a mocap endpoint. *)
Definition welds_have_target (EQ_WELD : Z) (m : Model) : Prop :=
  Forall (fun w => fst (fst w) = EQ_WELD → has_target m (snd (fst w)) (snd w))
         (constraints m).

(** No weld of [l] resolves to target [id]. *)
Definition not_resolved_in (EQ_WELD : Z) (m : Model) (l : list (Z * Z * Z))
    (id : Z) : Prop :=
  ∀ o1 o2 id' body', (EQ_WELD, o1, o2) ∈ l → resolves m o1 o2 id' body' →
                     id' ≠ id.

(** The shapes that MuJoCo gives the arrays of a simulation: one pose per
    mocap target and per body, mocap ids below [nmocap], and constraint
    endpoints that are bodies. *)
Record sim_shapes (sim : Sim) : Prop := {
  shape_mocap_pos : length (mocap_pos (data sim)) = nmocap (model sim);
  shape_mocap_quat : length (mocap_quat (data sim)) = nmocap (model sim);
  shape_body_xpos :
    length (body_xpos (data sim)) = length (body_mocapid (model sim));
  shape_body_xquat :
    length (body_xquat (data sim)) = length (body_mocapid (model sim));
  shape_mocapid :
    Forall (fun id => -1 ≤ id < Z.of_nat (nmocap (model sim)))
           (body_mocapid (model sim));
  shape_eq_obj1 :
    ∀ o1s, eq_obj1id (model sim) = Some o1s →
      Forall (fun o => 0 ≤ o < Z.of_nat (length (body_mocapid (model sim))))
             o1s;
  shape_eq_obj2 :
    ∀ o2s, eq_obj2id (model sim) = Some o2s →
      Forall (fun o => 0 ≤ o < Z.of_nat (length (body_mocapid (model sim))))
             o2s
}.

(** The position deltas that [mocap_set_action] reads from an action, one
    row per target: [action[:7n].reshape(n, 7)[:, :3]]. *)
Definition pos_delta (n : nat) (action : list float) : list vec3 :=
  map fst (rows7 (take (n * 7) action)).

(** ** The shape of the observation *)

(** [N_DOF_ROBOT] and [N_DOF_OBJECT] (lines 44-45), the numbers of joint
    and of object coordinates that the robot is made to read (lines
    53-57), and the length of the goal that [__init__] stores (line 51). *)
Definition N_DOF_ROBOT : nat := 9.

Definition N_DOF_OBJECT : nat := 21.

Definition goal_dim : nat := 30.

(** Modelled from the spec: the declared observation dimensionality.
    [obs_dim] is set by the base class, which is not under src/; the spec
    gives the goal-space invariant, "Goal length matches half the
    observation dimensionality". *)
Definition declared_obs_dim : nat := 2 * goal_dim.

(** The read-out of the robot has the shape the robot was made for. *)
Definition robot_obs_shape {Robot : Type}
    (robot_get_obs :
       Robot → Sim → float →
       float * list float * list float * list float * list float * Robot)
  : Prop :=
  ∀ r s noise t qp qv obj_qp obj_qv r',
    robot_get_obs r s noise = (t, qp, qv, obj_qp, obj_qv, r') →
    length qp = N_DOF_ROBOT ∧ length obj_qp = N_DOF_OBJECT.

(** The invariant behind the length of the observation: [goal_concat] is
    set and the goal has the length that [__init__] gives it (lines 48 and
    51), and [obs_dim] is the declared dimensionality. *)
Definition obs_invariant {Robot Controller : Type}
    (env : Env Robot Controller) : Prop :=
  goal_concat env = true ∧
  length (goal env) = goal_dim ∧
  obs_dim env = declared_obs_dim.

(** ** The stores of [reset_mocap2body_xpos], as data *)

(** A sequence of stores [s[k] = v]. *)
Fixpoint writes {A : Type} (W : list (nat * A)) (s : list A) : list A :=
  match W with
  | [] => s
  | kv :: W' => writes W' (<[fst kv := snd kv]> s)
  end.

(** The stores into [mocap_pos] and into [mocap_quat]. *)
Definition plan : Type := list (nat * vec3) * list (nat * quat).

Definition apply_plan (d : Data) (pl : plan) : Data :=
  set_mocap_quat (set_mocap_pos d (writes (fst pl) (mocap_pos d)))
                 (writes (snd pl) (mocap_quat d)).

Section Plan.

Variable EQ_WELD : Z.

(** The stores of one iteration of the loop: they depend on the model, on
    the body poses and on the number of targets, not on the targets'
    poses. *)
Definition weld_plan (m : Model) (bxp : list vec3) (bxq : list quat)
    (np nq : nat) (w : Z * Z * Z) : result plan :=
  let '(ty, obj1_id, obj2_id) := w in
  if negb (ty =? EQ_WELD) then Ok ([], [])
  else
    r ← weld_endpoints m obj1_id obj2_id;
    p ← np_get bxp (snd r);
    k1 ← np_index np (fst r);
    q ← np_get bxq (snd r);
    k2 ← np_index nq (fst r);
    Ok ([(k1, p)], [(k2, q)]).

Fixpoint welds_plan (m : Model) (bxp : list vec3) (bxq : list quat)
    (np nq : nat) (l : list (Z * Z * Z)) : result plan :=
  match l with
  | [] => Ok ([], [])
  | w :: l' =>
      pl ← weld_plan m bxp bxq np nq w;
      rest ← welds_plan m bxp bxq np nq l';
      Ok (fst pl ++ fst rest, snd pl ++ snd rest)
  end.

Definition sim_plan (sim : Sim) : result plan :=
  welds_plan (model sim)
    (body_xpos (data sim)) (body_xquat (data sim))
    (length (mocap_pos (data sim))) (length (mocap_quat (data sim)))
    (constraints (model sim)).

End Plan.

(** * Reference models of the imported functions, and an example model *)

(** A reference [np.mean]: the float64 sum, taken from the left, over the
    count.  (numpy adds long arrays in another order; the mean of an empty
    array is NaN here as there.) *)
Definition np_mean_ref (l : list float) : float :=
  (fold_left PrimFloat.add l 0 / float_of_Z (Z.of_nat (length l)))%float.

(** [num / den] rounded to the nearest integer, ties to the even one, for
    [0 <= num] and [0 < den]. *)
Definition Z_round_half_even (num den : Z) : Z :=
  let q := num / den in
  match 2 * (num mod den) ?= den with
  | Lt => q
  | Gt => q + 1
  | Eq => if Z.even q then q else q + 1
  end.

(** A reference [round(x, ndigits)] on a float, as CPython computes it: the
    exact value of [x] is rounded to [ndigits] decimals, ties to even, and
    the decimal number obtained is rounded to the nearest float.  Zeros,
    infinities and NaN are returned as they are. *)
Definition py_round_ref (x : float) (ndigits : Z) : float :=
  match Prim2SF x with
  | S754_finite s m e =>
      let num := Z.pos m * 2 ^ Z.max e 0 * 10 ^ Z.max ndigits 0 in
      let den := 2 ^ Z.max (- e) 0 * 10 ^ Z.max (- ndigits) 0 in
      let k := Z_round_half_even num den in
      let rnum := k * 10 ^ Z.max (- ndigits) 0 in
      let rden := 10 ^ Z.max ndigits 0 in
      if rnum =? 0 then (if s then -0 else 0)%float
      else
        let '(mz, ez, lz) := SFdiv_core_binary prec emax rnum 0 rden 0 in
        SF2Prim (binary_round_aux prec emax s mz ez lz)
  | _ => x
  end.

(** The value of [mujoco_py.const.EQ_WELD]. *)
Definition EQ_WELD_mujoco : Z := 1.

(** A small model: the world body, one mocap body and the hand that is
    welded to it; a direct-drive actuator and a position actuator. *)
Definition model_ex : Model := {|
  nmocap := 1;
  eq_type := Some [1];
  eq_obj1id := Some [1];
  eq_obj2id := Some [2];
  body_mocapid := [-1; 0; -1];
  actuator_biastype := [0; 1];
  actuator_trnid := [(0, -1); (1, -1)];
  jnt_qposadr := [0; 1]
|}.

Definition data_ex : Data := {|
  ctrl := Some [0; 0]%float;
  qpos := [0.5; 0.25]%float;
  mocap_pos := [(0, 0, 0)%float];
  mocap_quat := [(1, 0, 1, 0)%float];
  body_xpos := [(0, 0, 0); (0, 0, 0); (0.5, 0.25, 1)]%float;
  body_xquat := [(1, 0, 0, 0); (1, 0, 1, 0); (0, 1, 0, 0)]%float
|}.

Definition sim_ex : Sim := {| model := model_ex; data := data_ex |}.

(** The same simulation with its weld declared between the world body and
    the hand, two physical bodies. *)
Definition sim_no_target : Sim := {|
  model := {|
    nmocap := 1;
    eq_type := Some [1];
    eq_obj1id := Some [0];
    eq_obj2id := Some [2];
    body_mocapid := [-1; 0; -1];
    actuator_biastype := [0; 1];
    actuator_trnid := [(0, -1); (1, -1)];
    jnt_qposadr := [0; 1]
  |};
  data := data_ex
|}.

(** A 9-vector command with a position delta, and one with none. *)
Definition action_ex : list float :=
  [0; 0.05; 0; 1; 0; 1; 0; 0.5; 0.5]%float.


(** An environment on [sim_ex], with a robot that reads nine joints and
    twenty-one object coordinates, all zero, and a physics step that does
    nothing. *)
Definition obs_qp_ex : list float := repeat 0%float 9.

Definition obs_obj_qp_ex : list float := repeat 0%float 21.

Definition robot_get_obs_ex (r : unit) (s : Sim) (noise : float)
  : float * list float * list float * list float * list float * unit :=
  (0%float, obs_qp_ex, repeat 0%float 9, obs_obj_qp_ex, repeat 0%float 21, tt).

Definition sim_step_ex (s : Sim) : Sim := s.

Definition make_controller_ex (s : Sim) : unit := tt.

Definition env_ex (init : bool) : Env unit unit := {|
  cls := KitchenTaskRelaxV1;
  sim := sim_ex;
  robot := tt;
  controller := None;
  initializing := init;
  goal_concat := true;
  obs_dict := None;
  robot_noise_ratio := 0.1%float;
  goal := repeat 0%float 30;
  act_mid := repeat 0%float 9;
  act_amp := repeat 2%float 9;
  obs_dim := 60
|}.

(** Rollouts: one with two steps, and one with no step at all. *)
Definition path_ex (final : bool) : Path :=
  {| score := [1; 1]%float; bonus := [PyBool false; PyBool final] |}.

Definition path_no_steps : Path := {| score := []; bonus := [] |}.

(** ** Further examples *)

(** A model with a second mocap target, which no weld ties to a body. *)
Definition sim_two_targets : Sim := {|
  model := {|
    nmocap := 2;
    eq_type := Some [1];
    eq_obj1id := Some [1];
    eq_obj2id := Some [2];
    body_mocapid := [-1; 0; -1; 1];
    actuator_biastype := [0; 1];
    actuator_trnid := [(0, -1); (1, -1)];
    jnt_qposadr := [0; 1]
  |};
  data := {|
    ctrl := Some [0; 0]%float;
    qpos := [0.5; 0.25]%float;
    mocap_pos := [(0, 0, 0); (1, 2, 3)]%float;
    mocap_quat := [(1, 0, 1, 0); (1, 0, 0, 0)]%float;
    body_xpos := [(0, 0, 0); (0, 0, 0); (0.5, 0.25, 1); (1, 2, 3)]%float;
    body_xquat :=
      [(1, 0, 0, 0); (1, 0, 1, 0); (0, 1, 0, 0); (1, 0, 0, 0)]%float
  |}
|}.

(** A 14-vector command: a pose delta for each of the two targets. *)
Definition action_two : list float :=
  [0; 0.05; 0; 1; 0; 1; 0; 0.5; 0; 0; 1; 0; 0; 0]%float.

(** [sim_ex] with the nine joint positions of the robot. *)
Definition sim_nine : Sim :=
  set_data sim_ex (set_qpos data_ex (repeat 0%float 9)).

(** The parameters of the one constraint of [model_ex], a weld with an
    offset. *)
Definition eq_data_ex : EqData := Some [[0.5; 0; 0; 0; 1; 0; 0]%float].

(** A [sim.forward()] that changes nothing, and a [robot.reset] that
    stores the joint positions it is given. *)
Definition sim_forward_ex (s : Sim) : Sim := s.

Definition sim_forward_eq_ex (s : Sim) (eq_data : EqData) : Sim := s.

Definition robot_reset_ex (r : unit) (s : Sim) (reset_pos reset_vel : list float)
  : unit * Sim :=
  (r, set_data s (set_qpos (data s) reset_pos)).

(** * Properties *)

(** ** The error monad and numpy indexing *)

Lemma bind_Ok {A B : Type} (m : result A) (f : A → result B) (b : B) :
  m ≫= f = Ok b ↔ ∃ a, m = Ok a ∧ f a = Ok b.
Proof.
  destruct m as [a|e]; simpl; split.
  - eauto.
  - by intros (a' & [= ->] & ?).
  - discriminate.
  - by intros (a' & [=] & ?).
Qed.

Lemma foldlM_app {A B : Type} (f : A → B → result A) (acc : A) (l1 l2 : list B) :
  foldlM f acc (l1 ++ l2) = foldlM f acc l1 ≫= fun acc' => foldlM f acc' l2.
Proof.
  revert acc. induction l1 as [|x l1 IH]; intros acc; simpl; [done|].
  destruct (f acc x) as [acc'|e]; simpl; [apply IH | done].
Qed.

Lemma np_index_nat (n i : nat) : (i < n)%nat → np_index n (Z.of_nat i) = Ok i.
Proof.
  intros Hi. unfold np_index.
  replace (0 <=? Z.of_nat i) with true by (symmetry; apply Z.leb_le; lia).
  replace (Z.of_nat i <? Z.of_nat n) with true by (symmetry; apply Z.ltb_lt; lia).
  simpl. by rewrite Nat2Z.id.
Qed.

Lemma np_index_nat_ge (n i : nat) :
  (n ≤ i)%nat → np_index n (Z.of_nat i) = Raise IndexError.
Proof.
  intros Hi. unfold np_index.
  replace (Z.of_nat i <? Z.of_nat n) with false by (symmetry; apply Z.ltb_ge; lia).
  replace (Z.of_nat i <? 0) with false by (symmetry; apply Z.ltb_ge; lia).
  by rewrite !andb_false_r.
Qed.

Lemma np_index_lt (n : nat) (i : Z) (k : nat) :
  np_index n i = Ok k → (k < n)%nat.
Proof.
  unfold np_index.
  destruct ((0 <=? i) && _) eqn:E1.
  - apply andb_true_iff in E1 as [?%Z.leb_le ?%Z.ltb_lt].
    intros Hk; injection Hk as <-. lia.
  - destruct ((- _ <=? i) && _) eqn:E2; [|done].
    apply andb_true_iff in E2 as [?%Z.leb_le ?%Z.ltb_lt].
    intros Hk; injection Hk as <-. lia.
Qed.

Lemma np_get_nat {A : Type} (l : list A) (i : nat) (x : A) :
  l !! i = Some x → np_get l (Z.of_nat i) = Ok x.
Proof.
  intros Hx. unfold np_get.
  rewrite np_index_nat by (by eapply lookup_lt_Some). simpl. by rewrite Hx.
Qed.

Lemma np_get_Ok {A : Type} (l : list A) (i : Z) (x : A) :
  np_get l i = Ok x ↔ ∃ k, np_index (length l) i = Ok k ∧ l !! k = Some x.
Proof.
  unfold np_get. rewrite bind_Ok. split.
  - intros (k & Hk & Hx). exists k. split; [done|].
    destruct (l !! k); by inversion Hx.
  - intros (k & Hk & Hx). exists k. by rewrite Hx.
Qed.



Lemma np_set_nat {A : Type} (l : list A) (i : nat) (v : A) :
  (i < length l)%nat → np_set l (Z.of_nat i) v = Ok (<[i:=v]> l).
Proof. intros Hi. unfold np_set. by rewrite np_index_nat. Qed.

(** ** binary64 arithmetic *)

Lemma SFmul_comm (p e : Z) (x y : spec_float) : SFmul p e x y = SFmul p e y x.
Proof.
  destruct x as [sx|sx| |sx mx ex], y as [sy|sy| |sy my ey]; simpl;
    rewrite ?(xorb_comm sx sy); try reflexivity.
  by rewrite Pos.mul_comm, Z.add_comm.
Qed.

Lemma float_mul_comm (x y : float) : (x * y = y * x)%float.
Proof. apply Prim2SF_inj. rewrite !mul_spec. apply SFmul_comm. Qed.

Lemma float_add_0_r (x : float) : x ≠ neg_zero → (x + 0 = x)%float.
Proof.
  intros Hx. apply Prim2SF_inj. rewrite add_spec.
  change (Prim2SF 0) with (S754_zero false).
  destruct (Prim2SF x) as [[]| [] | |s m e] eqn:E; try reflexivity.
  exfalso. apply Hx. apply Prim2SF_inj. rewrite E. reflexivity.
Qed.

Lemma float_add_0_r_same (x : float) : float_same (x + 0)%float x.
Proof.
  destruct (Prim2SF x) as [[]| [] | |s m e] eqn:E.
  1: { right. assert (x = neg_zero) as ->
         by (apply Prim2SF_inj; rewrite E; reflexivity).
       reflexivity. }
  all: left; apply float_add_0_r; intros ->; discriminate E.
Qed.

Lemma np_index_Raise (n : nat) (i : Z) (e : exn) :
  np_index n i = Raise e → e = IndexError.
Proof.
  unfold np_index. destruct ((0 <=? i) && _); [done|].
  destruct ((- _ <=? i) && _); [done|]. by intros [= <-].
Qed.

Lemma np_get_Raise {A : Type} (l : list A) (i : Z) (e : exn) :
  np_get l i = Raise e → e = IndexError.
Proof.
  unfold np_get. destruct (np_index (length l) i) as [k|e'] eqn:E; simpl.
  - destruct (l !! k); [done|]. by intros [= <-].
  - intros [= <-]. by eapply np_index_Raise.
Qed.

(** ** [ctrl_set_action] *)

Lemma ctrl_set_one_Ok (m : Model) (qp command c : list float) (i : nat) (a : float) :
  command !! i = Some a → (i < length c)%nat → actuator_ok m qp i →
  ∃ v, ctrl_set_one m qp command c i = Ok (<[i:=v]> c) ∧
       dispatched m qp a (<[i:=v]> c) i.
Proof.
  intros Ha Hi (bt & Hbt & Hpos). unfold ctrl_set_one, dispatched.
  rewrite (np_get_nat _ _ _ Hbt). simpl.
  destruct (bt =? 0) eqn:E.
  - rewrite (np_get_nat _ _ _ Ha). simpl. exists a.
    rewrite np_set_nat by done. split; [done|].
    exists bt. rewrite E. split; [done|]. by apply list_lookup_insert_eq.
  - apply Z.eqb_neq in E. destruct (Hpos E) as (tr & idx & q & Htr & Hidx & Hq).
    rewrite (np_get_nat _ _ _ Htr). simpl. rewrite Hidx. simpl. rewrite Hq. simpl.
    rewrite (np_get_nat _ _ _ Ha). simpl. exists (q + a)%float.
    rewrite np_set_nat by done. split; [done|].
    exists bt. replace (bt =? 0) with false by (symmetry; by apply Z.eqb_neq).
    split; [done|]. exists tr, idx, q. repeat split; try done.
    by apply list_lookup_insert_eq.
Qed.

Lemma dispatched_insert_ne (m : Model) (qp : list float) (a v : float)
    (c : list float) (i j : nat) :
  i ≠ j → dispatched m qp a c i → dispatched m qp a (<[j:=v]> c) i.
Proof.
  intros Hij (bt & Hbt & H). exists bt. split; [done|].
  destruct (bt =? 0).
  - by rewrite list_lookup_insert_ne.
  - destruct H as (tr & idx & q & ? & ? & ? & ?). exists tr, idx, q.
    by rewrite list_lookup_insert_ne.
Qed.

Lemma ctrl_loop (m : Model) (qp command c : list float) (n : nat) :
  (n ≤ length command)%nat → (n ≤ length c)%nat →
  (∀ i, (i < n)%nat → actuator_ok m qp i) →
  ∃ c', foldlM (ctrl_set_one m qp command) c (seq 0 n) = Ok c' ∧
        length c' = length c ∧
        (∀ i a, (i < n)%nat → command !! i = Some a → dispatched m qp a c' i) ∧
        (∀ i, (n ≤ i)%nat → c' !! i = c !! i).
Proof.
  induction n as [|n IH]; intros Hn Hc Hok.
  - exists c. simpl. split_and!; try done. intros; lia.
  - destruct IH as (c1 & Hrun & Hlen & Hdone & Hrest); [lia|lia|intros; apply Hok; lia|].
    destruct (lookup_lt_is_Some_2 command n) as [a Ha]; [lia|].
    destruct (ctrl_set_one_Ok m qp command c1 n a) as (v & Hstep & Hv);
      [done|lia|apply Hok; lia|].
    exists (<[n:=v]> c1). rewrite seq_S, foldlM_app, Hrun. simpl.
    rewrite Hstep. simpl. split_and!; [done|..].
    + by rewrite length_insert.
    + intros i a' Hi Ha'. destruct (decide (i = n)) as [->|Hne].
      * congruence.
      * apply dispatched_insert_ne; [done|]. apply Hdone; [lia|done].
    + intros i Hi. rewrite list_lookup_insert_ne by lia. apply Hrest. lia.
Qed.

(** C3. Actuator dispatch: the leading [7 * nmocap] entries of the action
    are dropped; then slot [i] of [ctrl] receives [command[i]] verbatim for
    a direct-drive actuator (bias type 0) and
    [qpos[jnt_qposadr[actuator_trnid[i,0]]] + command[i]] for every other
    actuator, so a zero command dispatches the measured joint position
    itself; the slots past the command are left as they were.  The values
    are read from the control array of the simulation that the call
    leaves; nothing else of the simulation has changed. *)
Theorem ctrl_set_action_dispatch (sim : Sim) (action c : list float) :
  let m := model sim in
  let qp := qpos (data sim) in
  let command := drop (nmocap m * 7) action in
  ctrl (data sim) = Some c →
  (length command ≤ length c)%nat →
  (∀ i, (i < length command)%nat → actuator_ok m qp i) →
  ∃ sim' c',
    ctrl_set_action sim action = Ok sim' ∧
    ctrl (data sim') = Some c' ∧
    length c' = length c ∧
    (∀ i a, command !! i = Some a →
       ∃ bt, actuator_biastype m !! i = Some bt ∧
         (bt = 0 → c' !! i = Some a) ∧
         (bt ≠ 0 →
          ∃ tr idx q, actuator_trnid m !! i = Some tr ∧
            np_get (jnt_qposadr m) (fst tr) = Ok idx ∧ np_get qp idx = Ok q ∧
            c' !! i = Some (q + a)%float ∧
            (a = 0%float → float_same (q + a)%float q))) ∧
    (∀ i, (length command ≤ i)%nat → c' !! i = c !! i) ∧
    model sim' = model sim ∧
    qpos (data sim') = qpos (data sim) ∧
    mocap_pos (data sim') = mocap_pos (data sim) ∧
    mocap_quat (data sim') = mocap_quat (data sim) ∧
    body_xpos (data sim') = body_xpos (data sim) ∧
    body_xquat (data sim') = body_xquat (data sim).
Proof.
  intros m qp command Hc Hlen Hok.
  destruct (ctrl_loop m qp command c (length command))
    as (c' & Hrun & Hlen' & Hdone & Hrest); [lia|done|done|].
  assert (ctrl_set_action sim action
          = Ok (set_data sim (set_ctrl (data sim) c'))) as Hcall.
  { unfold ctrl_set_action. rewrite Hc.
    replace (if (0 <? nmocap (model sim))%nat
             then snd (np_split action (nmocap (model sim) * 7)) else action)
      with command.
    - fold m qp. by rewrite Hrun.
    - unfold command, m. destruct (nmocap (model sim)); simpl; [|done].
      by rewrite drop_0. }
  exists (set_data sim (set_ctrl (data sim) c')), c'.
  split; [exact Hcall|]. split; [reflexivity|]. split; [exact Hlen'|].
  split; [|split; [exact Hrest|by split_and!]].
  intros i a Ha.
  destruct (Hdone i a) as (bt & Hbt & H); [by eapply lookup_lt_Some|done|].
  exists bt. split; [done|]. split.
  - intros ->. done.
  - intros Hne. replace (bt =? 0) with false in H
      by (symmetry; by apply Z.eqb_neq).
    destruct H as (tr & idx & q & ? & ? & ? & ?). exists tr, idx, q.
    repeat split; try done. intros ->. apply float_add_0_r_same.
Qed.

Lemma writes_app {A : Type} (W1 W2 : list (nat * A)) (s : list A) :
  writes (W1 ++ W2) s = writes W2 (writes W1 s).
Proof. revert s. induction W1 as [|kv W1 IH]; intros s; simpl; [done|apply IH]. Qed.

Lemma length_writes {A : Type} (W : list (nat * A)) (s : list A) :
  length (writes W s) = length s.
Proof.
  revert s. induction W as [|[k v] W IH]; intros s; simpl; [done|].
  rewrite IH. apply length_insert.
Qed.

Lemma writes_insert_absorb {A : Type} (W : list (nat * A)) (s : list A)
    (k : nat) (p q : A) :
  <[k:=p]> (writes W (<[k:=q]> s)) = <[k:=p]> (writes W s).
Proof.
  revert s. induction W as [|[k' v] W IH]; intros s; simpl.
  - apply list_insert_insert_eq.
  - destruct (decide (k' = k)) as [->|Hne].
    + by rewrite list_insert_insert_eq.
    + rewrite (list_insert_insert_ne _ k' k) by done. apply IH.
Qed.

Lemma writes_idemp {A : Type} (W : list (nat * A)) (s : list A) :
  writes W (writes W s) = writes W s.
Proof.
  induction W as [|[k v] W IH] using rev_ind; [done|].
  rewrite !writes_app. simpl.
  by rewrite writes_insert_absorb, IH.
Qed.

Lemma writes_lookup_ne {A : Type} (W : list (nat * A)) (s : list A) (k : nat) :
  (∀ kv, kv ∈ W → fst kv ≠ k) → writes W s !! k = s !! k.
Proof.
  revert s. induction W as [|[k' v] W IH]; intros s HW; simpl; [done|].
  rewrite IH.
  - apply list_lookup_insert_ne. apply (HW (k', v)). by left.
  - intros kv Hkv. apply HW. by right.
Qed.

Lemma writes_lookup_last {A : Type} (W1 W2 : list (nat * A)) (s : list A)
    (k : nat) (v : A) :
  (k < length s)%nat → (∀ kv, kv ∈ W2 → fst kv ≠ k) →
  writes (W1 ++ (k, v) :: W2) s !! k = Some v.
Proof.
  intros Hk HW2. rewrite writes_app. simpl.
  rewrite writes_lookup_ne by done.
  apply list_lookup_insert_eq. by rewrite length_writes.
Qed.

Section MocapPlan.

Variable EQ_WELD : Z.

Lemma apply_plan_nil (d : Data) : apply_plan d ([], []) = d.
Proof. by destruct d. Qed.

Lemma apply_plan_app (d : Data) (pl1 pl2 : plan) :
  apply_plan (apply_plan d pl1) pl2
  = apply_plan d (fst pl1 ++ fst pl2, snd pl1 ++ snd pl2).
Proof. unfold apply_plan. simpl. by rewrite !writes_app. Qed.

Lemma reset_weld_plan (m : Model) (d : Data) (w : Z * Z * Z) :
  reset_weld EQ_WELD m d w
  = pl ← weld_plan EQ_WELD m (body_xpos d) (body_xquat d)
                   (length (mocap_pos d)) (length (mocap_quat d)) w;
    Ok (apply_plan d pl).
Proof.
  destruct w as [[ty o1] o2]. unfold reset_weld, weld_plan.
  destruct (negb (ty =? EQ_WELD)); simpl; [by rewrite apply_plan_nil|].
  destruct (weld_endpoints m o1 o2) as [[id b]|e]; simpl; [|done].
  destruct (np_get (body_xpos d) b) as [p|e]; simpl; [|done].
  unfold np_set.
  destruct (np_index (length (mocap_pos d)) id) as [k1|e]; simpl; [|done].
  destruct (np_get (body_xquat d) b) as [q|e]; simpl; [|done].
  destruct (np_index (length (mocap_quat d)) id) as [k2|e]; simpl; done.
Qed.

Lemma foldlM_reset_plan (m : Model) (l : list (Z * Z * Z)) (d : Data) :
  foldlM (reset_weld EQ_WELD m) d l
  = pl ← welds_plan EQ_WELD m (body_xpos d) (body_xquat d)
                    (length (mocap_pos d)) (length (mocap_quat d)) l;
    Ok (apply_plan d pl).
Proof.
  revert d. induction l as [|w l IH]; intros d; simpl.
  - by rewrite apply_plan_nil.
  - rewrite reset_weld_plan.
    destruct (weld_plan _ _ _ _ _ _ w) as [pl|e]; simpl; [|done].
    rewrite IH. simpl. rewrite !length_writes.
    destruct (welds_plan _ _ _ _ _ _ l) as [rest|e]; simpl; [|done].
    by rewrite apply_plan_app.
Qed.

Lemma welds_plan_app (m : Model) (bxp : list vec3) (bxq : list quat)
    (np nq : nat) (l1 l2 : list (Z * Z * Z)) :
  welds_plan EQ_WELD m bxp bxq np nq (l1 ++ l2)
  = pl1 ← welds_plan EQ_WELD m bxp bxq np nq l1;
    pl2 ← welds_plan EQ_WELD m bxp bxq np nq l2;
    Ok (fst pl1 ++ fst pl2, snd pl1 ++ snd pl2).
Proof.
  induction l1 as [|w l1 IH]; simpl.
  - destruct (welds_plan EQ_WELD m bxp bxq np nq l2) as [[? ?]|e]; done.
  - destruct (weld_plan EQ_WELD m bxp bxq np nq w) as [plw|e]; simpl; [|done].
    rewrite IH.
    destruct (welds_plan EQ_WELD m bxp bxq np nq l1) as [pl1|e]; simpl; [|done].
    destruct (welds_plan EQ_WELD m bxp bxq np nq l2) as [pl2|e]; simpl; [|done].
    by rewrite !app_assoc.
Qed.

End MocapPlan.

(** ** Weld endpoints *)

Lemma weld_endpoints_resolves (m : Model) (o1 o2 id body : Z) :
  weld_endpoints m o1 o2 = Ok (id, body) ↔ resolves m o1 o2 id body.
Proof.
  unfold weld_endpoints, resolves, is_target, not_target.
  destruct (np_get (body_mocapid m) o1) as [id1|e]; simpl; [|naive_solver].
  destruct (Z.eqb_spec id1 (-1)) as [->|E1]; simpl.
  - destruct (np_get (body_mocapid m) o2) as [id2|e]; simpl; [|naive_solver].
    destruct (Z.eqb_spec id2 (-1)) as [->|E2]; naive_solver.
  - destruct (Z.eqb_spec id1 (-1)); naive_solver.
Qed.

Lemma weld_endpoints_assert (m : Model) (o1 o2 : Z) :
  weld_endpoints m o1 o2 = Raise AssertionError ↔
  not_target m o1 ∧ not_target m o2.
Proof.
  unfold weld_endpoints, not_target.
  destruct (np_get (body_mocapid m) o1) as [id1|e] eqn:G1; simpl.
  2: { apply np_get_Raise in G1 as ->. naive_solver. }
  destruct (Z.eqb_spec id1 (-1)) as [->|E1]; simpl.
  - destruct (np_get (body_mocapid m) o2) as [id2|e] eqn:G2; simpl.
    2: { apply np_get_Raise in G2 as ->. naive_solver. }
    destruct (Z.eqb_spec id2 (-1)) as [->|E2]; naive_solver.
  - destruct (Z.eqb_spec id1 (-1)); naive_solver.
Qed.

Section ResetMocap.

Variable EQ_WELD : Z.

(** ** [reset_mocap2body_xpos] as a list of stores *)

Lemma reset_mocap2body_xpos_fold (sim : Sim) :
  reset_mocap2body_xpos EQ_WELD sim
  = d ← foldlM (reset_weld EQ_WELD (model sim)) (data sim)
               (constraints (model sim));
    Ok (set_data sim d).
Proof.
  unfold reset_mocap2body_xpos, constraints.
  destruct (eq_type (model sim)), (eq_obj1id (model sim)),
    (eq_obj2id (model sim)); simpl; try done; by destruct sim.
Qed.

Lemma reset_mocap2body_xpos_plan (sim : Sim) :
  reset_mocap2body_xpos EQ_WELD sim
  = pl ← sim_plan EQ_WELD sim; Ok (set_data sim (apply_plan (data sim) pl)).
Proof.
  rewrite reset_mocap2body_xpos_fold, foldlM_reset_plan. unfold sim_plan.
  by destruct (welds_plan _ _ _ _ _ _ _).
Qed.

Lemma sim_plan_apply (sim : Sim) (pl : plan) :
  sim_plan EQ_WELD (set_data sim (apply_plan (data sim) pl)) = sim_plan EQ_WELD sim.
Proof. unfold sim_plan. simpl. by rewrite !length_writes. Qed.

Lemma reset_mocap2body_xpos_idemp (sim sim1 : Sim) :
  reset_mocap2body_xpos EQ_WELD sim = Ok sim1 →
  reset_mocap2body_xpos EQ_WELD sim1 = Ok sim1.
Proof.
  rewrite !reset_mocap2body_xpos_plan.
  destruct (sim_plan EQ_WELD sim) as [pl|e] eqn:E; simpl; [|done].
  intros [= <-]. rewrite sim_plan_apply, E. simpl.
  unfold apply_plan, set_data, set_mocap_quat, set_mocap_pos. simpl.
  by rewrite !writes_idemp.
Qed.

(** ** One weld *)

Lemma weld_plan_weld (m : Model) (bxp : list vec3) (bxq : list quat)
    (np nq : nat) (o1 o2 id body : Z) (p : vec3) (q : quat) (k1 k2 : nat) :
  resolves m o1 o2 id body →
  np_get bxp body = Ok p → np_index np id = Ok k1 →
  np_get bxq body = Ok q → np_index nq id = Ok k2 →
  weld_plan EQ_WELD m bxp bxq np nq (EQ_WELD, o1, o2)
  = Ok ([(k1, p)], [(k2, q)]).
Proof.
  intros Hr%weld_endpoints_resolves Hp Hk1 Hq Hk2. unfold weld_plan.
  rewrite Z.eqb_refl. simpl. rewrite Hr. simpl.
  rewrite Hp. simpl. rewrite Hk1. simpl. rewrite Hq. simpl. by rewrite Hk2.
Qed.

Lemma weld_plan_inv (m : Model) (bxp : list vec3) (bxq : list quat)
    (np nq : nat) (ty o1 o2 : Z) (pl : plan) :
  weld_plan EQ_WELD m bxp bxq np nq (ty, o1, o2) = Ok pl →
  (ty ≠ EQ_WELD ∧ pl = ([], [])) ∨
  (ty = EQ_WELD ∧ ∃ id body p q k1 k2,
     resolves m o1 o2 id body ∧
     np_get bxp body = Ok p ∧ np_index np id = Ok k1 ∧
     np_get bxq body = Ok q ∧ np_index nq id = Ok k2 ∧
     pl = ([(k1, p)], [(k2, q)])).
Proof.
  unfold weld_plan. destruct (Z.eqb_spec ty EQ_WELD) as [->|Hne]; simpl.
  2: { intros [= <-]. by left. }
  destruct (weld_endpoints m o1 o2) as [[id body]|e] eqn:Er; simpl; [|done].
  destruct (np_get bxp body) as [p|e] eqn:Ep; simpl; [|done].
  destruct (np_index np id) as [k1|e] eqn:Ek1; simpl; [|done].
  destruct (np_get bxq body) as [q|e] eqn:Eq; simpl; [|done].
  destruct (np_index nq id) as [k2|e] eqn:Ek2; simpl; [|done].
  intros [= <-]. right. split; [done|].
  exists id, body, p, q, k1, k2. by apply weld_endpoints_resolves in Er.
Qed.

Lemma weld_plan_assert (m : Model) (bxp : list vec3) (bxq : list quat)
    (np nq : nat) (ty o1 o2 : Z) :
  weld_plan EQ_WELD m bxp bxq np nq (ty, o1, o2) = Raise AssertionError →
  ty = EQ_WELD ∧ not_target m o1 ∧ not_target m o2.
Proof.
  unfold weld_plan. destruct (Z.eqb_spec ty EQ_WELD) as [->|Hne]; simpl; [|done].
  destruct (weld_endpoints m o1 o2) as [[id body]|e] eqn:Er; simpl.
  - destruct (np_get bxp body) as [p|e] eqn:Ep; simpl.
    2: { apply np_get_Raise in Ep as ->. done. }
    destruct (np_index np id) as [k1|e] eqn:Ek1; simpl.
    2: { apply np_index_Raise in Ek1 as ->. done. }
    destruct (np_get bxq body) as [q|e] eqn:Eq; simpl.
    2: { apply np_get_Raise in Eq as ->. done. }
    destruct (np_index nq id) as [k2|e] eqn:Ek2; simpl; [done|].
    apply np_index_Raise in Ek2 as ->. done.
  - intros [= ->]. by apply weld_endpoints_assert in Er.
Qed.

#[local] Arguments weld_plan : simpl never.

Lemma welds_plan_assert (m : Model) (bxp : list vec3) (bxq : list quat)
    (np nq : nat) (l : list (Z * Z * Z)) :
  welds_plan EQ_WELD m bxp bxq np nq l = Raise AssertionError →
  ∃ o1 o2, (EQ_WELD, o1, o2) ∈ l ∧ not_target m o1 ∧ not_target m o2.
Proof.
  induction l as [|[[ty o1] o2] l IH]; simpl; [done|].
  destruct (weld_plan _ _ _ _ _ _ _) as [pl|e] eqn:E; simpl.
  - destruct (welds_plan _ _ _ _ _ _ l) as [rest|e]; simpl; [done|].
    intros [= ->]. destruct IH as (o1' & o2' & ? & ?); [done|].
    exists o1', o2'. split; [by right|done].
  - intros [= ->]. apply weld_plan_assert in E as (-> & ? & ?).
    exists o1, o2. split; [by left|done].
Qed.

(** Every store of the plan comes from a weld of the list. *)
Lemma welds_plan_slots (m : Model) (bxp : list vec3) (bxq : list quat)
    (np nq : nat) (l : list (Z * Z * Z)) (pl : plan) :
  welds_plan EQ_WELD m bxp bxq np nq l = Ok pl →
  (∀ kv, kv ∈ fst pl →
     ∃ o1 o2 id body, (EQ_WELD, o1, o2) ∈ l ∧ resolves m o1 o2 id body ∧
                      np_index np id = Ok (fst kv)) ∧
  (∀ kv, kv ∈ snd pl →
     ∃ o1 o2 id body, (EQ_WELD, o1, o2) ∈ l ∧ resolves m o1 o2 id body ∧
                      np_index nq id = Ok (fst kv)).
Proof.
  revert pl. induction l as [|[[ty o1] o2] l IH]; intros pl; simpl.
  - intros [= <-]. split; intros kv Hkv; by apply elem_of_nil in Hkv.
  - destruct (weld_plan _ _ _ _ _ _ _) as [plw|e] eqn:E; simpl; [|done].
    destruct (welds_plan _ _ _ _ _ _ l) as [rest|e]; simpl; [|done].
    intros [= <-]. simpl. destruct (IH rest eq_refl) as [IH1 IH2].
    apply weld_plan_inv in E
      as [[_ ->]|(-> & id & body & p & q & k1 & k2 & Hr & _ & Hk1 & _ & Hk2 & ->)];
      simpl.
    + split; intros kv Hkv.
      * destruct (IH1 kv Hkv) as (o1' & o2' & id & body & ? & ?).
        exists o1', o2', id, body. split; [by right|done].
      * destruct (IH2 kv Hkv) as (o1' & o2' & id & body & ? & ?).
        exists o1', o2', id, body. split; [by right|done].
    + split; intros kv Hkv; apply elem_of_cons in Hkv as [->|Hkv].
      * exists o1, o2, id, body. split; [by left|done].
      * destruct (IH1 kv Hkv) as (o1' & o2' & id' & body' & ? & ?).
        exists o1', o2', id', body'. split; [by right|done].
      * exists o1, o2, id, body. split; [by left|done].
      * destruct (IH2 kv Hkv) as (o1' & o2' & id' & body' & ? & ?).
        exists o1', o2', id', body'. split; [by right|done].
Qed.

End ResetMocap.

Lemma np_index_range (n : nat) (i : Z) :
  0 ≤ i < Z.of_nat n → np_index n i = Ok (Z.to_nat i).
Proof.
  intros Hi. rewrite <- (Z2Nat.id i) at 1 by lia. apply np_index_nat. lia.
Qed.

Lemma np_get_range {A : Type} (l : list A) (i : Z) :
  0 ≤ i < Z.of_nat (length l) →
  ∃ x, l !! Z.to_nat i = Some x ∧ np_get l i = Ok x.
Proof.
  intros Hi. destruct (lookup_lt_is_Some_2 l (Z.to_nat i)) as [x Hx]; [lia|].
  exists x. split; [done|]. rewrite <- (Z2Nat.id i) by lia. by apply np_get_nat.
Qed.

Lemma np_get_elem_of {A : Type} (l : list A) (i : Z) (x : A) :
  np_get l i = Ok x → x ∈ l.
Proof.
  intros (k & _ & Hk)%np_get_Ok. apply list_elem_of_lookup. eauto.
Qed.

Lemma resolves_fun (m : Model) (o1 o2 id body id' body' : Z) :
  resolves m o1 o2 id body → resolves m o1 o2 id' body' →
  id' = id ∧ body' = body.
Proof.
  intros H1%weld_endpoints_resolves H2%weld_endpoints_resolves.
  rewrite H1 in H2. by injection H2 as <- <-.
Qed.

Lemma elem_of_zip3 {A B C : Type} (a : list A) (b : list B) (c : list C)
    (x : A) (y : B) (z : C) :
  (x, y, z) ∈ zip3 a b c → x ∈ a ∧ y ∈ b ∧ z ∈ c.
Proof.
  unfold zip3. intros H. split_and!.
  - apply elem_of_zip_l in H. simpl in H. by apply elem_of_zip_l in H.
  - apply elem_of_zip_l in H. simpl in H. by apply elem_of_zip_r in H.
  - by apply elem_of_zip_r in H.
Qed.

Section ResetShapes.

Variable EQ_WELD : Z.

#[local] Arguments weld_plan : simpl never.

Lemma welds_plan_Ok (m : Model) (bxp : list vec3) (bxq : list quat)
    (np nq : nat) (l : list (Z * Z * Z)) :
  (∀ w, w ∈ l → ∃ pl, weld_plan EQ_WELD m bxp bxq np nq w = Ok pl) →
  ∃ pl, welds_plan EQ_WELD m bxp bxq np nq l = Ok pl.
Proof.
  induction l as [|w l IH]; intros Hl; simpl; [eauto|].
  destruct (Hl w) as [pl ->]; [by left|]. simpl.
  destruct IH as [rest ->]; [|simpl; eauto].
  intros w' Hw'. apply Hl. by right.
Qed.

(** Under MuJoCo's shapes a weld with a mocap endpoint resolves, and both
    its target handle and its body are in range. *)
Lemma shapes_resolves (sim : Sim) (ty o1 o2 : Z) :
  sim_shapes sim → (ty, o1, o2) ∈ constraints (model sim) →
  has_target (model sim) o1 o2 →
  ∃ id body, resolves (model sim) o1 o2 id body ∧
             0 ≤ id < Z.of_nat (nmocap (model sim)) ∧
             0 ≤ body < Z.of_nat (length (body_mocapid (model sim))).
Proof.
  intros Hs Hin Ht. unfold constraints in Hin.
  destruct (eq_type (model sim)) as [tys|] eqn:Ety;
    [|by apply elem_of_nil in Hin].
  destruct (eq_obj1id (model sim)) as [o1s|] eqn:Eo1;
    [|by apply elem_of_nil in Hin].
  destruct (eq_obj2id (model sim)) as [o2s|] eqn:Eo2;
    [|by apply elem_of_nil in Hin].
  apply elem_of_zip3 in Hin as (_ & Hin1 & Hin2).
  pose proof (proj1 (Forall_forall _ _) (shape_eq_obj1 sim Hs o1s Eo1) o1 Hin1)
    as Hr1.
  pose proof (proj1 (Forall_forall _ _) (shape_eq_obj2 sim Hs o2s Eo2) o2 Hin2)
    as Hr2.
  simpl in Hr1, Hr2.
  assert (∀ o id, is_target (model sim) o id →
                  0 ≤ id < Z.of_nat (nmocap (model sim))) as Hid.
  { intros o id [Hg Hne]. apply np_get_elem_of in Hg.
    pose proof (proj1 (Forall_forall _ _) (shape_mocapid sim Hs) id Hg) as Hb.
    simpl in Hb. lia. }
  destruct (np_get_range (body_mocapid (model sim)) o1 Hr1) as (id1 & _ & Hg1).
  destruct (decide (id1 = -1)) as [->|Hne1].
  - destruct Ht as [[id [Hg ?]]|[id Hid2]]; [congruence|].
    exists id, o1. split; [by right|]. split; [by eapply Hid|lia].
  - exists id1, o2. split; [by left|]. split; [|lia].
    by eapply (Hid o1); split.
Qed.

Lemma shapes_weld_plan (sim : Sim) (ty o1 o2 : Z) :
  sim_shapes sim → (ty, o1, o2) ∈ constraints (model sim) →
  (ty = EQ_WELD → has_target (model sim) o1 o2) →
  ∃ pl, weld_plan EQ_WELD (model sim)
          (body_xpos (data sim)) (body_xquat (data sim))
          (length (mocap_pos (data sim))) (length (mocap_quat (data sim)))
          (ty, o1, o2) = Ok pl.
Proof.
  intros Hs Hin Ht. destruct (decide (ty = EQ_WELD)) as [->|Hne].
  - destruct (shapes_resolves sim _ o1 o2 Hs Hin (Ht eq_refl))
      as (id & body & Hr & Hid & Hbody).
    destruct (np_get_range (body_xpos (data sim)) body) as (p & _ & Hp);
      [by rewrite (shape_body_xpos sim Hs)|].
    destruct (np_get_range (body_xquat (data sim)) body) as (q & _ & Hq);
      [by rewrite (shape_body_xquat sim Hs)|].
    eexists. eapply weld_plan_weld; try done.
    + apply np_index_range. by rewrite (shape_mocap_pos sim Hs).
    + apply np_index_range. by rewrite (shape_mocap_quat sim Hs).
  - exists ([], []). unfold weld_plan.
    by rewrite (proj2 (Z.eqb_neq ty EQ_WELD) Hne).
Qed.

(** The state after [reset_mocap2body_xpos]: the model, the body poses, the
    controls and the joint positions are those before. *)
Lemma reset_mocap2body_xpos_frame (sim sim' : Sim) :
  reset_mocap2body_xpos EQ_WELD sim = Ok sim' →
  model sim' = model sim ∧
  body_xpos (data sim') = body_xpos (data sim) ∧
  body_xquat (data sim') = body_xquat (data sim) ∧
  ctrl (data sim') = ctrl (data sim) ∧
  qpos (data sim') = qpos (data sim) ∧
  length (mocap_pos (data sim')) = length (mocap_pos (data sim)) ∧
  length (mocap_quat (data sim')) = length (mocap_quat (data sim)).
Proof.
  rewrite reset_mocap2body_xpos_plan.
  destruct (sim_plan EQ_WELD sim) as [pl|e]; simpl; [|done].
  intros [= <-]. simpl. by rewrite !length_writes.
Qed.

(** The pose of a target after [reset_mocap2body_xpos] is the pose of the
    body of the last weld that resolves to it. *)
Lemma reset_mocap2body_xpos_last (sim sim' : Sim)
    (l1 l2 : list (Z * Z * Z)) (o1 o2 id body : Z) :
  sim_shapes sim →
  reset_mocap2body_xpos EQ_WELD sim = Ok sim' →
  constraints (model sim) = l1 ++ (EQ_WELD, o1, o2) :: l2 →
  resolves (model sim) o1 o2 id body →
  (∀ o1' o2' id' body', (EQ_WELD, o1', o2') ∈ l2 →
     resolves (model sim) o1' o2' id' body' → id' ≠ id) →
  ∃ p q, body_xpos (data sim) !! Z.to_nat body = Some p ∧
         body_xquat (data sim) !! Z.to_nat body = Some q ∧
         mocap_pos (data sim') !! Z.to_nat id = Some p ∧
         mocap_quat (data sim') !! Z.to_nat id = Some q.
Proof.
  intros Hs Hrun Hl Hr Hlater.
  assert ((EQ_WELD, o1, o2) ∈ constraints (model sim)) as Hin.
  { rewrite Hl. apply elem_of_app. right. by left. }
  assert (has_target (model sim) o1 o2) as Ht.
  { destruct Hr as [[? _]|(_ & ? & _)]; [left|right]; eauto. }
  destruct (shapes_resolves sim _ o1 o2 Hs Hin Ht)
    as (id0 & body0 & Hr0 & Hid & Hbody).
  destruct (resolves_fun _ _ _ _ _ _ _ Hr Hr0) as [-> ->].
  destruct (np_get_range (body_xpos (data sim)) body) as (p & Hp' & Hp);
    [by rewrite (shape_body_xpos sim Hs)|].
  destruct (np_get_range (body_xquat (data sim)) body) as (q & Hq' & Hq);
    [by rewrite (shape_body_xquat sim Hs)|].
  exists p, q. split; [done|]. split; [done|].
  rewrite reset_mocap2body_xpos_plan in Hrun.
  destruct (sim_plan EQ_WELD sim) as [pl|e] eqn:Epl; simpl in Hrun; [|done].
  injection Hrun as <-. unfold sim_plan in Epl.
  rewrite Hl, welds_plan_app in Epl.
  destruct (welds_plan _ _ _ _ _ _ l1) as [pl1|e]; simpl in Epl; [|done].
  rewrite (weld_plan_weld EQ_WELD _ _ _ _ _ _ _ _ _ p q
             (Z.to_nat id) (Z.to_nat id) Hr Hp) in Epl; try done.
  2: { apply np_index_range. by rewrite (shape_mocap_pos sim Hs). }
  2: { apply np_index_range. by rewrite (shape_mocap_quat sim Hs). }
  simpl in Epl.
  destruct (welds_plan _ _ _ _ _ _ l2) as [pl2|e] eqn:E2; simpl in Epl; [|done].
  injection Epl as <-. simpl.
  destruct (welds_plan_slots EQ_WELD _ _ _ _ _ _ _ E2) as [Hs1 Hs2].
  assert (∀ o1' o2' id' body', (EQ_WELD, o1', o2') ∈ l2 →
            resolves (model sim) o1' o2' id' body' →
            0 ≤ id' < Z.of_nat (nmocap (model sim))) as Hrange.
  { intros o1' o2' id' body' Hin' Hr'.
    assert ((EQ_WELD, o1', o2') ∈ constraints (model sim)) as Hin''.
    { rewrite Hl. apply elem_of_app. right. by right. }
    assert (has_target (model sim) o1' o2') as Ht'.
    { destruct Hr' as [[? _]|(_ & ? & _)]; [left|right]; eauto. }
    destruct (shapes_resolves sim _ o1' o2' Hs Hin'' Ht')
      as (id0 & body0 & Hr0' & Hid' & _).
    by destruct (resolves_fun _ _ _ _ _ _ _ Hr' Hr0') as [-> _]. }
  split.
  - apply writes_lookup_last.
    + rewrite (shape_mocap_pos sim Hs). lia.
    + intros kv Hkv Heq.
      destruct (Hs1 kv Hkv) as (o1' & o2' & id' & body' & Hin' & Hr' & Hk).
      pose proof (Hrange _ _ _ _ Hin' Hr') as Hid'.
      rewrite np_index_range in Hk
        by (by rewrite (shape_mocap_pos sim Hs)).
      injection Hk as Hk. apply (Hlater _ _ _ _ Hin' Hr'). lia.
  - apply writes_lookup_last.
    + rewrite (shape_mocap_quat sim Hs). lia.
    + intros kv Hkv Heq.
      destruct (Hs2 kv Hkv) as (o1' & o2' & id' & body' & Hin' & Hr' & Hk).
      pose proof (Hrange _ _ _ _ Hin' Hr') as Hid'.
      rewrite np_index_range in Hk
        by (by rewrite (shape_mocap_quat sim Hs)).
      injection Hk as Hk. apply (Hlater _ _ _ _ Hin' Hr'). lia.
Qed.

Lemma reset_mocap2body_xpos_Ok (sim : Sim) :
  sim_shapes sim →
  (∀ o1 o2, (EQ_WELD, o1, o2) ∈ constraints (model sim) →
            has_target (model sim) o1 o2) →
  ∃ sim', reset_mocap2body_xpos EQ_WELD sim = Ok sim'.
Proof.
  intros Hs Ht. rewrite reset_mocap2body_xpos_plan. unfold sim_plan.
  destruct (welds_plan_Ok (model sim)
              (body_xpos (data sim)) (body_xquat (data sim))
              (length (mocap_pos (data sim))) (length (mocap_quat (data sim)))
              (constraints (model sim))) as [pl ->]; [|simpl; eauto].
  intros [[ty o1] o2] Hin. apply shapes_weld_plan; [done|done|].
  intros ->. by apply Ht.
Qed.

End ResetShapes.

Lemma length_rows7 (n : nat) (l : list float) :
  length l = (n * 7)%nat → length (rows7 l) = n.
Proof.
  revert l. induction n as [|n IH]; intros l Hl.
  - by destruct l.
  - destruct l as [|x1 [|x2 [|x3 [|x4 [|x5 [|x6 [|x7 l]]]]]]]; simpl in Hl;
      try lia.
    simpl. f_equal. apply IH. lia.
Qed.



Section MocapSetAction.

Variable EQ_WELD : Z.

Lemma mocap_set_action_unfold (sim : Sim) (action : list float) :
  (0 < nmocap (model sim))%nat →
  (nmocap (model sim) * 7 ≤ length action)%nat →
  length (mocap_pos (data sim)) = nmocap (model sim) →
  mocap_set_action EQ_WELD sim action
  = sim1 ← reset_mocap2body_xpos EQ_WELD sim;
    Ok (set_data sim1
          (set_mocap_pos (data sim1)
             (zip_with vec3_add (mocap_pos (data sim1))
                       (pos_delta (nmocap (model sim)) action)))).
Proof.
  intros Hn Hlen Hpos. unfold mocap_set_action.
  replace (0 <? nmocap (model sim))%nat with true
    by (symmetry; by apply Nat.ltb_lt).
  unfold np_reshape7, np_split. simpl.
  rewrite length_take, Nat.min_l by done. rewrite Nat.eqb_refl. simpl.
  destruct (reset_mocap2body_xpos EQ_WELD sim) as [sim1|e] eqn:E; simpl; [|done].
  apply reset_mocap2body_xpos_frame in E as (_ & _ & _ & _ & _ & Hl & _).
  unfold np_iadd_rows.
  rewrite length_map, (length_rows7 (nmocap (model sim)))
    by (rewrite length_take; lia).
  rewrite Hl, Hpos, Nat.eqb_refl. simpl. done.
Qed.


End MocapSetAction.



Lemma length_pos_delta (n : nat) (action : list float) :
  (n * 7 ≤ length action)%nat → length (pos_delta n action) = n.
Proof.
  intros H. unfold pos_delta. rewrite length_map. apply length_rows7.
  rewrite length_take. lia.
Qed.

Section MocapTheorems.

Variable EQ_WELD : Z.

Lemma welds_have_target_elem (m : Model) :
  welds_have_target EQ_WELD m →
  ∀ o1 o2, (EQ_WELD, o1, o2) ∈ constraints m → has_target m o1 o2.
Proof.
  intros H o1 o2 Hin.
  by apply (proj1 (Forall_forall _ _) H (EQ_WELD, o1, o2) Hin).
Qed.

Lemma reset_weld_resolves (m : Model) (d : Data) (o1 o2 id body : Z)
    (k : nat) (p : vec3) (q : quat) :
  resolves m o1 o2 id body →
  np_index (length (mocap_pos d)) id = Ok k →
  np_index (length (mocap_quat d)) id = Ok k →
  np_get (body_xpos d) body = Ok p → np_get (body_xquat d) body = Ok q →
  ∃ d', reset_weld EQ_WELD m d (EQ_WELD, o1, o2) = Ok d' ∧
        mocap_pos d' !! k = Some p ∧ mocap_quat d' !! k = Some q ∧
        body_xpos d' = body_xpos d ∧ body_xquat d' = body_xquat d.
Proof.
  intros Hr Hk1 Hk2 Hp Hq. rewrite reset_weld_plan.
  rewrite (weld_plan_weld EQ_WELD _ _ _ _ _ _ _ _ _ p q k k Hr Hp Hk1 Hq Hk2).
  simpl. eexists. split; [done|]. simpl.
  apply np_index_lt in Hk1, Hk2.
  by rewrite !list_lookup_insert_eq.
Qed.

Lemma reset_mocap2body_xpos_neither (sim : Sim) (l1 l2 : list (Z * Z * Z))
    (o1 o2 : Z) (d1 : Data) :
  constraints (model sim) = l1 ++ (EQ_WELD, o1, o2) :: l2 →
  foldlM (reset_weld EQ_WELD (model sim)) (data sim) l1 = Ok d1 →
  not_target (model sim) o1 → not_target (model sim) o2 →
  reset_mocap2body_xpos EQ_WELD sim = Raise AssertionError.
Proof.
  intros Hl H1 Hn1 Hn2. rewrite reset_mocap2body_xpos_fold, Hl, foldlM_app, H1.
  simpl. rewrite Z.eqb_refl. simpl.
  by rewrite (proj2 (weld_endpoints_assert _ _ _) (conj Hn1 Hn2)).
Qed.

Lemma reset_mocap2body_xpos_no_assert (sim : Sim) :
  welds_have_target EQ_WELD (model sim) →
  reset_mocap2body_xpos EQ_WELD sim ≠ Raise AssertionError.
Proof.
  intros Ht Hbad. rewrite reset_mocap2body_xpos_plan in Hbad.
  destruct (sim_plan EQ_WELD sim) as [pl|e] eqn:E; simpl in Hbad; [done|].
  injection Hbad as ->. apply welds_plan_assert in E as (o1 & o2 & Hin & Hn1 & Hn2).
  destruct (welds_have_target_elem _ Ht o1 o2 Hin) as [[id [Hg Hne]]|[id [Hg Hne]]];
    unfold not_target in *; congruence.
Qed.

(** C6. Resync to body.  Processing a weld copies the pose of its body
    endpoint onto its target endpoint, whichever of the two declared
    endpoints the target is.  A weld neither of whose endpoints is a target
    makes the operation fail at the assertion.  If every weld has a target
    endpoint the assertion is not reached, and on a simulation with
    MuJoCo's array shapes the operation returns, every target then having
    the pose of the body of the last weld that resolves to it. *)
Theorem reset_mocap2body_xpos_welds (sim : Sim) :
  let m := model sim in
  (∀ d o1 o2 id body k p q,
     resolves m o1 o2 id body →
     np_index (length (mocap_pos d)) id = Ok k →
     np_index (length (mocap_quat d)) id = Ok k →
     np_get (body_xpos d) body = Ok p → np_get (body_xquat d) body = Ok q →
     ∃ d', reset_weld EQ_WELD m d (EQ_WELD, o1, o2) = Ok d' ∧
           mocap_pos d' !! k = Some p ∧ mocap_quat d' !! k = Some q ∧
           body_xpos d' = body_xpos d ∧ body_xquat d' = body_xquat d) ∧
  (∀ l1 o1 o2 l2 d1,
     constraints m = l1 ++ (EQ_WELD, o1, o2) :: l2 →
     foldlM (reset_weld EQ_WELD m) (data sim) l1 = Ok d1 →
     not_target m o1 → not_target m o2 →
     reset_mocap2body_xpos EQ_WELD sim = Raise AssertionError) ∧
  (welds_have_target EQ_WELD m →
     reset_mocap2body_xpos EQ_WELD sim ≠ Raise AssertionError) ∧
  (sim_shapes sim → welds_have_target EQ_WELD m →
     ∃ sim', reset_mocap2body_xpos EQ_WELD sim = Ok sim' ∧
       model sim' = m ∧
       body_xpos (data sim') = body_xpos (data sim) ∧
       body_xquat (data sim') = body_xquat (data sim) ∧
       ∀ l1 o1 o2 l2 id body,
         constraints m = l1 ++ (EQ_WELD, o1, o2) :: l2 →
         resolves m o1 o2 id body → not_resolved_in EQ_WELD m l2 id →
         ∃ p q, body_xpos (data sim) !! Z.to_nat body = Some p ∧
                body_xquat (data sim) !! Z.to_nat body = Some q ∧
                mocap_pos (data sim') !! Z.to_nat id = Some p ∧
                mocap_quat (data sim') !! Z.to_nat id = Some q).
Proof.
  intros m. split_and!.
  - intros d o1 o2 id body k p q. apply reset_weld_resolves.
  - intros l1 o1 o2 l2 d1. apply reset_mocap2body_xpos_neither.
  - apply reset_mocap2body_xpos_no_assert.
  - intros Hs Ht.
    destruct (reset_mocap2body_xpos_Ok EQ_WELD sim Hs
                (welds_have_target_elem _ Ht)) as [sim' Hrun].
    exists sim'. split; [done|].
    destruct (reset_mocap2body_xpos_frame EQ_WELD _ _ Hrun)
      as (Hm & Hbp & Hbq & _).
    split_and!; try done.
    intros l1 o1 o2 l2 id body Hl Hr Hlater.
    by eapply reset_mocap2body_xpos_last.
Qed.

(** ** [mocap_set_action] *)

Lemma mocap_set_action_Ok (sim : Sim) (action : list float) :
  sim_shapes sim → (0 < nmocap (model sim))%nat →
  (nmocap (model sim) * 7 ≤ length action)%nat →
  welds_have_target EQ_WELD (model sim) →
  ∃ sim1,
    reset_mocap2body_xpos EQ_WELD sim = Ok sim1 ∧
    mocap_set_action EQ_WELD sim action
    = Ok (set_data sim1
            (set_mocap_pos (data sim1)
               (zip_with vec3_add (mocap_pos (data sim1))
                         (pos_delta (nmocap (model sim)) action)))).
Proof.
  intros Hs Hn Hlen Ht.
  destruct (reset_mocap2body_xpos_Ok EQ_WELD sim Hs
              (welds_have_target_elem _ Ht)) as [sim1 Hrun].
  exists sim1. split; [done|].
  rewrite mocap_set_action_unfold, Hrun; try done.
  apply (shape_mocap_pos sim Hs).
Qed.

Lemma mocap_set_action_welded (sim sim' : Sim) (action : list float)
    (l1 l2 : list (Z * Z * Z)) (o1 o2 id body : Z) :
  sim_shapes sim → (0 < nmocap (model sim))%nat →
  (nmocap (model sim) * 7 ≤ length action)%nat →
  mocap_set_action EQ_WELD sim action = Ok sim' →
  constraints (model sim) = l1 ++ (EQ_WELD, o1, o2) :: l2 →
  resolves (model sim) o1 o2 id body →
  not_resolved_in EQ_WELD (model sim) l2 id →
  ∃ p q dl,
    body_xpos (data sim) !! Z.to_nat body = Some p ∧
    body_xquat (data sim) !! Z.to_nat body = Some q ∧
    pos_delta (nmocap (model sim)) action !! Z.to_nat id = Some dl ∧
    mocap_pos (data sim') !! Z.to_nat id = Some (vec3_add p dl) ∧
    mocap_quat (data sim') !! Z.to_nat id = Some q.
Proof.
  intros Hs Hn Hlen Hrun Hl Hr Hlater.
  rewrite mocap_set_action_unfold in Hrun;
    [|done|done|apply (shape_mocap_pos sim Hs)].
  destruct (reset_mocap2body_xpos EQ_WELD sim) as [sim1|e] eqn:E;
    simpl in Hrun; [|done].
  injection Hrun as <-.
  destruct (reset_mocap2body_xpos_last EQ_WELD sim sim1 l1 l2 o1 o2 id body)
    as (p & q & Hp & Hq & Hmp & Hmq); try done.
  destruct (lookup_lt_is_Some_2 (pos_delta (nmocap (model sim)) action)
              (Z.to_nat id)) as [dl Hdl].
  { rewrite length_pos_delta by done.
    apply lookup_lt_Some in Hmp.
    apply reset_mocap2body_xpos_frame in E as (_ & _ & _ & _ & _ & Hlp & _).
    rewrite Hlp, (shape_mocap_pos sim Hs) in Hmp. done. }
  exists p, q, dl. split_and!; try done. simpl.
  rewrite lookup_zip_with, Hmp, Hdl. done.
Qed.

(** C10. On every invocation [mocap_set_action] first snaps each welded
    target to the pose of its body and then adds the position delta: the
    target's position afterwards is the body's position plus the delta and
    its orientation the body's, whatever pose the target had before. *)
Theorem mocap_set_action_snaps (sim : Sim) (action : list float) :
  sim_shapes sim → (0 < nmocap (model sim))%nat →
  (nmocap (model sim) * 7 ≤ length action)%nat →
  welds_have_target EQ_WELD (model sim) →
  ∃ sim',
    mocap_set_action EQ_WELD sim action = Ok sim' ∧
    (∀ l1 o1 o2 l2 id body,
       constraints (model sim) = l1 ++ (EQ_WELD, o1, o2) :: l2 →
       resolves (model sim) o1 o2 id body →
       not_resolved_in EQ_WELD (model sim) l2 id →
       ∃ p q dl,
         body_xpos (data sim) !! Z.to_nat body = Some p ∧
         body_xquat (data sim) !! Z.to_nat body = Some q ∧
         pos_delta (nmocap (model sim)) action !! Z.to_nat id = Some dl ∧
         mocap_pos (data sim') !! Z.to_nat id = Some (vec3_add p dl) ∧
         mocap_quat (data sim') !! Z.to_nat id = Some q) ∧
    (∀ sim0 l1 o1 o2 l2 id body,
       model sim0 = model sim →
       body_xpos (data sim0) = body_xpos (data sim) →
       body_xquat (data sim0) = body_xquat (data sim) →
       sim_shapes sim0 →
       constraints (model sim) = l1 ++ (EQ_WELD, o1, o2) :: l2 →
       resolves (model sim) o1 o2 id body →
       not_resolved_in EQ_WELD (model sim) l2 id →
       ∃ sim0',
         mocap_set_action EQ_WELD sim0 action = Ok sim0' ∧
         mocap_pos (data sim0') !! Z.to_nat id
         = mocap_pos (data sim') !! Z.to_nat id ∧
         mocap_quat (data sim0') !! Z.to_nat id
         = mocap_quat (data sim') !! Z.to_nat id).
Proof.
  intros Hs Hn Hlen Ht.
  destruct (mocap_set_action_Ok sim action Hs Hn Hlen Ht) as (sim1 & _ & Hrun).
  eexists. split; [exact Hrun|]. split.
  - intros l1 o1 o2 l2 id body Hl Hr Hlater.
    by eapply mocap_set_action_welded.
  - intros sim0 l1 o1 o2 l2 id body Hm Hbp Hbq Hs0 Hl Hr Hlater.
    destruct (mocap_set_action_Ok sim0 action) as (sim2 & _ & Hrun0);
      rewrite ?Hm; try done.
    eexists. split; [exact Hrun0|].
    destruct (mocap_set_action_welded sim _ action l1 l2 o1 o2 id body
                Hs Hn Hlen Hrun Hl Hr Hlater)
      as (p & q & dl & Hp & Hq & Hdl & -> & ->).
    rewrite <- Hm in Hn, Hlen, Hl, Hr, Hlater, Hdl.
    rewrite <- Hbp in Hp. rewrite <- Hbq in Hq.
    destruct (mocap_set_action_welded sim0 _ action l1 l2 o1 o2 id body
                Hs0 Hn Hlen Hrun0 Hl Hr Hlater)
      as (p' & q' & dl' & Hp' & Hq' & Hdl' & -> & ->).
    by simplify_eq.
Qed.


End MocapTheorems.

(** ** [_set_action] *)

(** C4. The action encoder: a 4-vector [[dx, dy, dz, grip]] becomes the
    9-vector [[0.05*dx, 0.05*dy, 0.05*dz, 1, 0, 1, 0, grip, grip]], which is
    what [ctrl_set_action] and then [mocap_set_action] receive; an action of
    any other length fails the assertion. *)
Theorem _set_action_encode_spec :
  (∀ dx dy dz grip : float,
     _set_action_encode [dx; dy; dz; grip]
     = Ok [0.05 * dx; 0.05 * dy; 0.05 * dz; 1; 0; 1; 0; grip; grip]%float) ∧
  (∀ action : list float,
     length action ≠ 4%nat →
     _set_action_encode action = Raise AssertionError) ∧
  (∀ (EQ_WELD : Z) (sim : Sim) (action : list float),
     _set_action EQ_WELD sim action
     = command ← _set_action_encode action;
       sim' ← ctrl_set_action sim command;
       mocap_set_action EQ_WELD sim' command).
Proof.
  split_and!.
  - intros dx dy dz grip. unfold _set_action_encode. simpl.
    by rewrite !(float_mul_comm 0.05).
  - intros action Hlen.
    by destruct action as [|? [|? [|? [|? [|? ?]]]]].
  - done.
Qed.

(** ** [_get_reward_n_score] *)

(** C8. The reward hook: [KitchenV0] raises [NotImplementedError];
    [KitchenTaskRelaxV1] returns, for every observation dictionary, the
    breakdown whose [true_reward], [bonus] and [r_total] are zero, with
    score zero. *)
Theorem _get_reward_n_score_spec (obs_dict : option ObsDict) :
  _get_reward_n_score KitchenV0 obs_dict = Raise NotImplementedError ∧
  ∃ reward_dict,
    _get_reward_n_score KitchenTaskRelaxV1 obs_dict = Ok (reward_dict, 0%float) ∧
    reward_dict !! "true_reward" = Some 0%float ∧
    reward_dict !! "bonus" = Some 0%float ∧
    reward_dict !! "r_total" = Some 0%float ∧
    dom reward_dict = ({["true_reward"; "bonus"; "r_total"]} : gset string).
Proof.
  split; [done|]. exists reward_dict_relax. split; [done|].
  unfold reward_dict_relax. split_and!.
  - rewrite lookup_insert_ne by done. rewrite lookup_insert_ne by done.
    apply lookup_insert_eq.
  - rewrite lookup_insert_ne by done. apply lookup_insert_eq.
  - apply lookup_insert_eq.
  - rewrite !dom_insert_L, dom_empty_L. set_solver.
Qed.

(** ** [step] and [_get_obs] *)

Lemma np_broadcast_length (f g : float → float → float) (a a' b b' : list float) :
  length a = length a' → length b = length b' →
  match np_broadcast f a b, np_broadcast g a' b' with
  | Ok r, Ok r' => length r = length r'
  | Raise e, Raise e' => e = e'
  | _, _ => False
  end.
Proof.
  intros Ha Hb. unfold np_broadcast. rewrite <- Ha, <- Hb.
  destruct (Nat.eqb (length a) (length b)) eqn:E.
  - apply Nat.eqb_eq in E. rewrite !length_zip_with. lia.
  - destruct a as [|x [|? ?]], a' as [|x' [|? ?]]; simpl in Ha; try lia;
      destruct b as [|y [|? ?]], b' as [|y' [|? ?]]; simpl in Hb; try lia;
      simpl; rewrite ?length_map; try done.
Qed.

Section Step.

Variable EQ_WELD : Z.
Variable Robot : Type.
Variable Controller : Type.
Variable sim_step : Sim → Sim.
Variable robot_get_obs :
  Robot → Sim → float →
  float * list float * list float * list float * list float * Robot.
Variable make_controller : Sim → Controller.

Lemma step_action_length (env : Env Robot Controller) (a b : list float) :
  length a = length b →
  step_action make_controller env a = step_action make_controller env b.
Proof.
  intros Hab. unfold step_action.
  destruct (initializing env); cbn [negb]; [done|].
  assert (length (np_clip a (-1) 1) = length (np_clip b (-1) 1)) as Hclip
    by (unfold np_clip; by rewrite !length_map).
  pose proof (np_broadcast_length PrimFloat.mul PrimFloat.mul
                (np_clip a (-1) 1) (np_clip b (-1) 1)
                (act_amp env) (act_amp env) Hclip eq_refl) as H1.
  destruct (np_broadcast PrimFloat.mul (np_clip a (-1) 1) (act_amp env))
    as [r|e],
    (np_broadcast PrimFloat.mul (np_clip b (-1) 1) (act_amp env))
    as [r'|e'];
    simpl; try done; [|by subst].
  pose proof (np_broadcast_length PrimFloat.add PrimFloat.add
                (act_mid env) (act_mid env) r r' eq_refl H1) as H2.
  destruct (np_broadcast PrimFloat.add (act_mid env) r) as [s|e],
    (np_broadcast PrimFloat.add (act_mid env) r') as [s'|e'];
    simpl; try done. by subst.
Qed.

Lemma step_action_env (env env1 : Env Robot Controller) (a a1 : list float) :
  step_action make_controller env a = Ok (env1, a1) →
  cls env1 = cls env ∧ goal env1 = goal env ∧
  goal_concat env1 = goal_concat env ∧ obs_dim env1 = obs_dim env ∧
  initializing env1 = initializing env ∧
  robot env1 = robot env ∧ sim env1 = sim env ∧
  robot_noise_ratio env1 = robot_noise_ratio env.
Proof.
  unfold step_action. destruct (initializing env) eqn:Ei; cbn [negb].
  - simpl. intros [= <- _]. simpl. by rewrite Ei.
  - destruct (np_broadcast _ _ _) as [s|e]; simpl; [|done].
    destruct (np_broadcast _ _ _) as [s'|e]; simpl; [|done].
    intros [= <- _]. by rewrite Ei.
Qed.

(** C1 fails on the code: [step] replaces its argument by the constant
    [[0, 1, 0, 0]] before it calls [_set_action], so the command that
    reaches the simulation is never the encoding of the caller's action,
    and two calls from the same state with different actions of the same
    shape do exactly the same. *)
Theorem step_ignores_action (env : Env Robot Controller) (a b : list float) :
  length a = length b →
  step EQ_WELD sim_step robot_get_obs make_controller env a
  = step EQ_WELD sim_step robot_get_obs make_controller env b ∧
  ∀ env' a', step_action make_controller env a = Ok (env', a') →
             a' = [0; 1; 0; 0]%float.
Proof.
  intros Hab. split.
  - unfold step. by rewrite (step_action_length env a b Hab).
  - intros env' a'. unfold step_action.
    destruct (if negb (initializing env) then _ else _) as [[e x]|e];
      simpl; [|done].
    by intros [= _ <-].
Qed.

(** C7. The flat observation is the concatenation of the joint positions,
    the object positions and the current goal, in this order, and its
    length is the declared observation dimensionality,
    [len(qp) + len(obj_qp) + len(goal) = obs_dim], on every step: for a
    robot whose read-out has [N_DOF_ROBOT] and [N_DOF_OBJECT] entries, in
    an environment that [__init__] and the calls since have left with
    [goal_concat] set, a goal of 30 entries and the declared [obs_dim].
    [_get_obs], [step] and [reset_model] emit such an observation and keep
    the invariant, and so does [set_goal] on a goal of 30 entries. *)
Theorem _get_obs_concat (env : Env Robot Controller) :
  robot_obs_shape robot_get_obs →
  obs_invariant env →
  (∃ t qp qv obj_qp obj_qv r obs,
     robot_get_obs (robot env) (sim env) (robot_noise_ratio env)
     = (t, qp, qv, obj_qp, obj_qv, r) ∧
     snd (_get_obs robot_get_obs env) = Some obs ∧
     obs = qp ++ obj_qp ++ goal env ∧
     (length qp + length obj_qp + length (goal env))%nat = obs_dim env ∧
     length obs = obs_dim env ∧
     obs_dict (fst (_get_obs robot_get_obs env))
     = Some {| obs_t := t; obs_qp := qp; obs_qv := qv; obs_obj_qp := obj_qp;
               obs_obj_qv := obj_qv; obs_goal := goal env |} ∧
     obs_invariant (fst (_get_obs robot_get_obs env))) ∧
  (∀ a env' obs' reward done info,
     step EQ_WELD sim_step robot_get_obs make_controller env a
     = Ok (env', (obs', reward, done, info)) →
     obs_invariant env' ∧
     ∃ o obs,
       obs_dict env' = Some o ∧ obs' = Some obs ∧
       obs = obs_qp o ++ obs_obj_qp o ++ goal env' ∧
       (length (obs_qp o) + length (obs_obj_qp o) + length (goal env'))%nat
       = obs_dim env' ∧
       length obs = obs_dim env') ∧
  (∀ robot_reset sim_forward init_qpos init_qvel env' obs',
     reset_model robot_get_obs robot_reset sim_forward init_qpos init_qvel
                 env = (env', obs') →
     obs_invariant env' ∧
     ∃ o obs,
       obs_dict env' = Some o ∧ obs' = Some obs ∧
       obs = obs_qp o ++ obs_obj_qp o ++ goal env' ∧
       length obs = obs_dim env') ∧
  (∀ g, length g = goal_dim → obs_invariant (set_goal env g)).
Proof.
  intros Hshape (Hgc & Hgoal & Hdim).
  assert (∀ qp obj_qp : list float,
            length qp = N_DOF_ROBOT → length obj_qp = N_DOF_OBJECT →
            (length qp + length obj_qp + length (goal env))%nat = obs_dim env ∧
            length (qp ++ obj_qp ++ goal env) = obs_dim env) as Hsum.
  { intros qp obj_qp Hqp Hobj.
    rewrite !length_app, Hqp, Hobj, Hgoal, Hdim.
    unfold N_DOF_ROBOT, N_DOF_OBJECT, declared_obs_dim, goal_dim. lia. }
  split_and!.
  - unfold _get_obs.
    destruct (robot_get_obs _ _ _) as [[[[[t qp] qv] obj_qp] obj_qv] r] eqn:Er.
    destruct (Hshape _ _ _ _ _ _ _ _ _ Er) as [Hqp Hobj].
    destruct (Hsum qp obj_qp Hqp Hobj) as [Hs1 Hs2].
    exists t, qp, qv, obj_qp, obj_qv, r, (qp ++ obj_qp ++ goal env).
    simpl. rewrite Hgc. by split_and!.
  - intros a env' obs' reward done info. unfold step.
    destruct (step_action make_controller env a) as [[env1 a1]|e] eqn:E1;
      simpl; [|done].
    apply step_action_env in E1 as (Hc & Hg & Hgc1 & Hd & _).
    destruct (_set_action EQ_WELD (sim env1) a1) as [s|e]; simpl; [|done].
    unfold _get_obs. simpl.
    destruct (robot_get_obs _ _ _) as [[[[[t qp] qv] obj_qp] obj_qv] r] eqn:Er.
    destruct (Hshape _ _ _ _ _ _ _ _ _ Er) as [Hqp Hobj].
    destruct (Hsum qp obj_qp Hqp Hobj) as [Hs1 Hs2].
    simpl. destruct (cls env1); simpl; [done|].
    change (reward_dict_relax !! "r_total") with (Some 0%float). simpl.
    intros [= <- <- <- <- <-]. unfold obs_invariant. simpl.
    rewrite Hg, Hgc1, Hgc, Hd. split; [by split_and!|].
    eexists _, _. split; [reflexivity|]. simpl. by split_and!.
  - intros robot_reset sim_forward init_qpos init_qvel env' obs'.
    unfold reset_model.
    destruct (robot_reset _ _ _ _) as [r0 s0]. unfold _get_obs. simpl.
    destruct (robot_get_obs _ _ _) as [[[[[t qp] qv] obj_qp] obj_qv] r] eqn:Er.
    destruct (Hshape _ _ _ _ _ _ _ _ _ Er) as [Hqp Hobj].
    destruct (Hsum qp obj_qp Hqp Hobj) as [Hs1 Hs2].
    simpl. rewrite Hgc. intros [= <- <-]. unfold obs_invariant. simpl.
    split; [by split_and!|].
    eexists _, _. split; [reflexivity|]. simpl. by split_and!.
  - intros g Hg. by split_and!.
Qed.

End Step.

(** ** [evaluate_success] *)

Lemma np_get_last {A : Type} (l : list A) :
  l ≠ [] → ∃ x, last l = Some x ∧ np_get l (-1) = Ok x.
Proof.
  intros Hl. destruct (last l) as [x|] eqn:E.
  2: { by apply last_None in E. }
  exists x. split; [done|]. unfold np_get, np_index.
  assert (0 < length l)%nat as Hlen by (destruct l; [done|simpl; lia]).
  replace (0 <=? -1) with false by done. simpl.
  replace (- Z.of_nat (length l) <=? -1) with true
    by (symmetry; apply Z.leb_le; lia).
  simpl. rewrite last_lookup in E.
  replace (Z.to_nat (Z.of_nat (length l) + -1)) with (pred (length l)) by lia.
  by rewrite E.
Qed.

(** The first loop of [evaluate_success] fills the array of zeros with the
    mean score of each rollout. *)
Lemma mean_loop (f : Path → float) (rest : list Path) (pre z : list float) :
  length z = length rest →
  foldlM (fun arr ip => np_set arr (Z.of_nat (fst ip)) (f (snd ip)))
         (pre ++ z) (imap (fun i p => (length pre + i, p)%nat) rest)
  = Ok (pre ++ map f rest).
Proof.
  revert pre z. induction rest as [|p rest IH]; intros pre z Hz.
  - destruct z; [|done]. done.
  - destruct z as [|z0 z]; [done|]. simpl in Hz.
    cbn [imap foldlM fst snd].
    rewrite np_set_nat by (rewrite length_app; simpl; lia). simpl.
    rewrite Nat.add_0_r.
    replace (<[length pre:=f p]> (pre ++ z0 :: z)) with ((pre ++ [f p]) ++ z).
    2: { rewrite <- (Nat.add_0_r (length pre)) at 1.
         rewrite insert_app_r. simpl. by rewrite <- app_assoc. }
    rewrite (imap_ext _ (fun i x => (length (pre ++ [f p]) + i, x)%nat)).
    2: { intros i x _. simpl. rewrite length_app. simpl. f_equal. lia. }
    rewrite IH by lia. by rewrite <- app_assoc.
Qed.

(** The second loop counts the rollouts whose last bonus is truthy. *)
Lemma success_loop (paths : list Path) (acc : Z) :
  Forall (fun p => bonus p ≠ []) paths →
  foldlM (fun n path => b ← np_get (bonus path) (-1);
                        Ok (n + Z.b2z (py_bool b))) acc paths
  = Ok (acc + Z.of_nat (length (filter final_bonus_truthy paths))).
Proof.
  revert acc. induction paths as [|p paths IH]; intros acc Hb; simpl.
  - f_equal. lia.
  - apply Forall_cons in Hb as [Hp Hb].
    destruct (np_get_last (bonus p) Hp) as (x & Hx & ->). simpl.
    rewrite IH by done. f_equal. rewrite filter_cons.
    case_decide as Hd; unfold final_bonus_truthy in Hd; rewrite Hx in Hd;
      destruct (py_bool x); simpl in *; try done; lia.
Qed.

Section EvaluateSuccess.

Variable np_mean : list float → float.
Variable py_round : float → Z → float.

Lemma evaluate_success_loops (paths : list Path) :
  evaluate_success np_mean py_round paths
  = num_success ←
      foldlM (fun n path => b ← np_get (bonus path) (-1);
                            Ok (n + Z.b2z (py_bool b))) 0 paths;
    success_percentage ←
      py_truediv (float_of_Z num_success * 100)%float
                 (Z.of_nat (length paths));
    Ok (np_sign (spec_mean_score np_mean paths) *
        (1e6 * py_round success_percentage 2
         + abs (spec_mean_score np_mean paths)))%float.
Proof.
  unfold evaluate_success, enumerate.
  pose proof (mean_loop (fun p => np_mean (score p)) paths []
                (repeat 0%float (length paths))) as H.
  simpl in H.
  change (imap _ paths) with (imap (@pair nat Path) paths) in H.
  rewrite H by apply repeat_length. done.
Qed.

(** C2, as the code has it.  For a non-empty list of rollouts, each with at
    least one recorded bonus, [evaluate_success] returns
    [sign(mean_score) * (1_000_000 * round(success_percentage, 2) +
    |mean_score|)], with [mean_score] the mean over the rollouts of their
    mean scores and [success_percentage] 100 times the number of rollouts
    whose final bonus is truthy, over the number of rollouts.  When the
    mean of equal numbers is that number and rounding leaves 100 and 0 as
    they are, one rollout with scores [1.0, 1.0] evaluates to
    [1_000_000 * 100.0 + 1.0] if its final bonus is [True] and to
    [1_000_000 * 0.0 + 1.0] if it is [False]. *)
Theorem evaluate_success_spec (paths : list Path) :
  paths ≠ [] → Forall (fun p => bonus p ≠ []) paths →
  evaluate_success np_mean py_round paths
  = Ok (spec_evaluate_success np_mean py_round paths) ∧
  (np_mean [1; 1]%float = 1%float → np_mean [1%float] = 1%float →
   py_round 100 2 = 100%float → py_round 0 2 = 0%float →
   ∀ earlier : list pyval,
     evaluate_success np_mean py_round
       [{| score := [1; 1]%float; bonus := earlier ++ [PyBool true] |}]
     = Ok (1000000 * 100 + 1)%float ∧
     evaluate_success np_mean py_round
       [{| score := [1; 1]%float; bonus := earlier ++ [PyBool false] |}]
     = Ok (1000000 * 0 + 1)%float).
Proof.
  intros Hne Hb. split.
  - rewrite evaluate_success_loops, success_loop by done. simpl.
    unfold py_truediv.
    replace (Z.of_nat (length paths) =? 0) with false.
    2: { symmetry. apply Z.eqb_neq. destruct paths; [done|simpl; lia]. }
    unfold spec_evaluate_success, spec_success_percentage.
    by rewrite (float_mul_comm 100).
  - intros Hm2 Hm1 Hr100 Hr0 earlier.
    rewrite !evaluate_success_loops. simpl.
    unfold spec_mean_score. simpl. rewrite Hm2, Hm1.
    destruct (np_get_last (earlier ++ [PyBool true])) as (x & Hx & ->);
      [by destruct earlier|].
    destruct (np_get_last (earlier ++ [PyBool false])) as (y & Hy & ->);
      [by destruct earlier|].
    rewrite last_snoc in Hx, Hy. injection Hx as <-. injection Hy as <-.
    simpl. change (float_of_Z 1 * 100 / float_of_Z 1)%float with 100%float.
    change (float_of_Z 0 * 100 / float_of_Z 1)%float with 0%float.
    rewrite Hr100, Hr0. split; reflexivity.
Qed.

(** C9. [evaluate_success] on an empty list of rollouts raises
    [ZeroDivisionError]: it returns no value. *)
Theorem evaluate_success_empty :
  evaluate_success np_mean py_round [] = Raise ZeroDivisionError ∧
  ∀ v, evaluate_success np_mean py_round [] ≠ Ok v.
Proof. split; [reflexivity|]. intros v. discriminate. Qed.

End EvaluateSuccess.

(** * The statements at the example model *)

Lemma sim_ex_shapes : sim_shapes sim_ex.
Proof.
  split; simpl; try reflexivity.
  - repeat constructor; lia.
  - intros o1s [= <-]. repeat constructor; lia.
  - intros o2s [= <-]. repeat constructor; lia.
Qed.

Lemma sim_ex_welds : welds_have_target EQ_WELD_mujoco (model sim_ex).
Proof.
  unfold welds_have_target. simpl. constructor; [|constructor].
  intros _. left. exists 0. split; [reflexivity|lia].
Qed.

Lemma sim_ex_resolves : resolves (model sim_ex) 1 2 0 2.
Proof. left. split; [|reflexivity]. split; [reflexivity|lia]. Qed.

Lemma ctrl_set_action_dispatch_witness :
  ∃ sim', ctrl_set_action sim_ex action_ex = Ok sim' ∧
          ctrl (data sim_ex) = Some [0; 0]%float ∧
          ctrl (data sim') = Some [0.5; 0.25 + 0.5]%float ∧
          qpos (data sim') = [0.5; 0.25]%float.
Proof.
  destruct (ctrl_set_action_dispatch sim_ex action_ex [0; 0]%float)
    as (sim' & c' & Hrun & Hc' & Hlen & Hslots & _ & _ & Hq & _).
  - reflexivity.
  - simpl. lia.
  - intros i Hi. simpl in Hi. destruct i as [|[|i]]; [| |lia].
    + exists 0. split; [reflexivity|]. intros H. by destruct H.
    + exists 1. split; [reflexivity|]. intros _.
      exists (1, -1), 1, 0.25%float. repeat split; reflexivity.
  - exists sim'. split; [exact Hrun|]. split; [reflexivity|].
    split; [|exact Hq].
    destruct (Hslots 0%nat 0.5%float eq_refl) as (bt0 & Hbt0 & Hdirect & _).
    injection Hbt0 as <-.
    destruct (Hslots 1%nat 0.5%float eq_refl) as (bt1 & Hbt1 & _ & Hpos).
    injection Hbt1 as <-.
    destruct Hpos as (tr & idx & q & Htr & Hidx & Hqp & H1 & _); [lia|].
    injection Htr as <-. injection Hidx as <-. injection Hqp as <-.
    rewrite Hc'. f_equal.
    destruct c' as [|x [|y [|z c']]]; simpl in Hlen; try lia.
    specialize (Hdirect eq_refl). simpl in Hdirect, H1.
    injection Hdirect as ->. injection H1 as ->. reflexivity.
Defined.

Lemma _set_action_encode_spec_witness :
  _set_action_encode [0; 1; 0; 0]%float
  = Ok [0.05 * 0; 0.05 * 1; 0.05 * 0; 1; 0; 1; 0; 0; 0]%float ∧
  _set_action_encode (repeat 0%float 9) = Raise AssertionError.
Proof.
  destruct _set_action_encode_spec as (H4 & Hother & _). split.
  - apply H4.
  - apply Hother. simpl. lia.
Defined.

Lemma reset_mocap2body_xpos_welds_witness :
  (∃ sim', reset_mocap2body_xpos EQ_WELD_mujoco sim_ex = Ok sim' ∧
           mocap_pos (data sim') !! 0%nat = Some (0.5, 0.25, 1)%float ∧
           mocap_quat (data sim') !! 0%nat = Some (0, 1, 0, 0)%float) ∧
  reset_mocap2body_xpos EQ_WELD_mujoco sim_no_target = Raise AssertionError.
Proof.
  split.
  - destruct (reset_mocap2body_xpos_welds EQ_WELD_mujoco sim_ex)
      as (_ & _ & _ & Hok).
    destruct (Hok sim_ex_shapes sim_ex_welds)
      as (sim' & Hrun & _ & _ & _ & Hlast).
    destruct (Hlast [] 1 2 [] 0 2) as (p & q & Hp & Hq & Hmp & Hmq).
    + reflexivity.
    + exact sim_ex_resolves.
    + intros o1 o2 id' body' Hin. by apply elem_of_nil in Hin.
    + simpl in Hp, Hq. injection Hp as <-. injection Hq as <-.
      exists sim'. split; [exact Hrun|]. split; [exact Hmp|exact Hmq].
  - destruct (reset_mocap2body_xpos_welds EQ_WELD_mujoco sim_no_target)
      as (_ & Hneither & _).
    apply (Hneither [] 0 2 [] (data sim_no_target)); reflexivity.
Defined.

Lemma mocap_set_action_snaps_witness :
  ∃ sim', mocap_set_action EQ_WELD_mujoco sim_ex action_ex = Ok sim' ∧
          mocap_pos (data sim') !! 0%nat
          = Some (0.5 + 0, 0.25 + 0.05, 1 + 0)%float ∧
          mocap_quat (data sim') !! 0%nat = Some (0, 1, 0, 0)%float.
Proof.
  destruct (mocap_set_action_snaps EQ_WELD_mujoco sim_ex action_ex)
    as (sim' & Hrun & Hwelded & _).
  - exact sim_ex_shapes.
  - simpl. lia.
  - simpl. lia.
  - exact sim_ex_welds.
  - destruct (Hwelded [] 1 2 [] 0 2)
      as (p & q & dl & Hp & Hq & Hdl & Hmp & Hmq).
    + reflexivity.
    + exact sim_ex_resolves.
    + intros o1 o2 id' body' Hin. by apply elem_of_nil in Hin.
    + simpl in Hp, Hq, Hdl.
      injection Hp as <-. injection Hq as <-. injection Hdl as <-.
      exists sim'. split; [exact Hrun|]. split; [exact Hmp|exact Hmq].
Defined.


Lemma step_ignores_action_witness :
  step EQ_WELD_mujoco sim_step_ex robot_get_obs_ex make_controller_ex
       (env_ex true) [1; 0; 0; 0]%float
  = step EQ_WELD_mujoco sim_step_ex robot_get_obs_ex make_controller_ex
         (env_ex true) [0; 0; 0; 0]%float ∧
  (∃ env', step_action make_controller_ex (env_ex true) [1; 0; 0; 0]%float
           = Ok (env', [0; 1; 0; 0]%float)) ∧
  step EQ_WELD_mujoco sim_step_ex robot_get_obs_ex make_controller_ex
       (env_ex false) [1; 0; 0; 0]%float
  = Raise ValueError.
Proof.
  destruct (step_ignores_action EQ_WELD_mujoco unit unit sim_step_ex
              robot_get_obs_ex make_controller_ex (env_ex true)
              [1; 0; 0; 0]%float [0; 0; 0; 0]%float eq_refl) as [Hsame _].
  split; [exact Hsame|]. split; [|reflexivity].
  eexists. reflexivity.
Defined.

Lemma robot_get_obs_ex_shape : robot_obs_shape robot_get_obs_ex.
Proof.
  intros r s noise t qp qv obj_qp obj_qv r' H.
  injection H as <- <- <- <- <- <-. split; reflexivity.
Qed.

Lemma _get_obs_concat_witness :
  snd (_get_obs robot_get_obs_ex (env_ex true))
  = Some (obs_qp_ex ++ obs_obj_qp_ex ++ repeat 0%float 30) ∧
  length (obs_qp_ex ++ obs_obj_qp_ex ++ repeat 0%float 30)
  = obs_dim (env_ex true) ∧
  ∃ env' obs reward done info,
    step EQ_WELD_mujoco sim_step_ex robot_get_obs_ex make_controller_ex
         (env_ex true) [0; 0; 0; 0]%float
    = Ok (env', (Some obs, reward, done, info)) ∧
    length obs = 60%nat ∧ obs_dim env' = 60%nat.
Proof.
  assert (obs_invariant (env_ex true)) as Hinv by (by split_and!).
  destruct (_get_obs_concat EQ_WELD_mujoco unit unit sim_step_ex
              robot_get_obs_ex make_controller_ex (env_ex true)
              robot_get_obs_ex_shape Hinv)
    as ((t & qp & qv & obj_qp & obj_qv & r & obs & Hr & Hobs & -> & _
         & Hlen & _) & Hstep & _).
  injection Hr as <- <- <- <- <- <-.
  split; [exact Hobs|]. split; [exact Hlen|].
  destruct (step EQ_WELD_mujoco sim_step_ex robot_get_obs_ex
              make_controller_ex (env_ex true) [0; 0; 0; 0]%float)
    as [[env' [[[obs' reward] done] info]]|e] eqn:E;
    [|vm_compute in E; discriminate E].
  destruct (Hstep _ _ _ _ _ _ E)
    as ((_ & _ & Hdim) & o & obs & _ & -> & _ & _ & Hlen').
  exists env', obs, reward, done, info.
  split; [reflexivity|]. rewrite Hlen', Hdim. split; reflexivity.
Defined.

Lemma evaluate_success_spec_witness :
  evaluate_success np_mean_ref py_round_ref [path_ex true]
  = Ok (1000000 * 100 + 1)%float ∧
  evaluate_success np_mean_ref py_round_ref [path_ex false]
  = Ok (1000000 * 0 + 1)%float ∧
  evaluate_success np_mean_ref py_round_ref [path_ex true; path_ex false]
  = Ok (spec_evaluate_success np_mean_ref py_round_ref
          [path_ex true; path_ex false]).
Proof.
  destruct (evaluate_success_spec np_mean_ref py_round_ref [path_ex true])
    as [_ Hex].
  - discriminate.
  - repeat constructor; discriminate.
  - destruct (Hex eq_refl eq_refl eq_refl eq_refl [PyBool false])
      as [Htrue Hfalse].
    split; [exact Htrue|]. split; [exact Hfalse|].
    apply evaluate_success_spec.
    + discriminate.
    + repeat constructor; discriminate.
Defined.

(** * Where the design document and the code part *)


(** C2 does not hold for every non-empty list of rollouts: a rollout with
    no recorded step has no final bonus, and [bonus[-1]] raises. *)
Lemma evaluate_success_no_steps_counterexample :
  [path_no_steps] ≠ [] ∧
  evaluate_success np_mean_ref py_round_ref [path_no_steps]
  = Raise IndexError.
Proof. split; [discriminate|reflexivity]. Qed.

(** * Further properties *)

(** ** Loops and indexing *)

Lemma foldlM_Raise {A B : Type} (P : exn → Prop) (f : A → B → result A)
    (l : list B) (acc : A) (e : exn) :
  (∀ a x e', f a x = Raise e' → P e') →
  foldlM f acc l = Raise e → P e.
Proof.
  intros Hf. revert acc. induction l as [|x l IH]; intros acc; simpl; [done|].
  destruct (f acc x) as [acc'|e'] eqn:E; simpl.
  - apply IH.
  - intros [= <-]. by eapply Hf.
Qed.

Lemma np_get_nat_Ok {A : Type} (l : list A) (i : nat) (x : A) :
  np_get l (Z.of_nat i) = Ok x → l !! i = Some x.
Proof.
  intros (k & Hk & Hx)%np_get_Ok.
  destruct (decide (i < length l)%nat) as [Hi|Hi].
  - rewrite np_index_nat in Hk by done. by injection Hk as <-.
  - rewrite np_index_nat_ge in Hk by lia. discriminate Hk.
Qed.

Lemma np_set_nat_Ok {A : Type} (l l' : list A) (i : nat) (v : A) :
  np_set l (Z.of_nat i) v = Ok l' → (i < length l)%nat ∧ l' = <[i:=v]> l.
Proof.
  unfold np_set. destruct (decide (i < length l)%nat) as [Hi|Hi].
  - rewrite np_index_nat by done. simpl. by intros [= <-].
  - rewrite np_index_nat_ge by lia. done.
Qed.

Lemma np_set_Raise {A : Type} (l : list A) (i : Z) (v : A) (e : exn) :
  np_set l i v = Raise e → e = IndexError.
Proof.
  unfold np_set. destruct (np_index (length l) i) as [k|e'] eqn:E; simpl;
    [done|].
  intros [= <-]. by eapply np_index_Raise.
Qed.

(** ** [ctrl_set_action]: what it leaves alone, and when it returns *)

Lemma ctrl_set_one_inv (m : Model) (qp command c c' : list float) (i : nat) :
  ctrl_set_one m qp command c i = Ok c' →
  (i < length c)%nat ∧ (∃ v, c' = <[i:=v]> c) ∧ actuator_ok m qp i.
Proof.
  unfold ctrl_set_one, actuator_ok.
  destruct (np_get (actuator_biastype m) (Z.of_nat i)) as [bt|e] eqn:Ebt;
    simpl; [|done].
  apply np_get_nat_Ok in Ebt.
  destruct (Z.eqb_spec bt 0) as [->|Hbt].
  - destruct (np_get command (Z.of_nat i)) as [a|e]; simpl; [|done].
    intros [Hi ->]%np_set_nat_Ok. split; [done|]. split; [eauto|].
    exists 0. split; [done|]. intros H. by destruct H.
  - destruct (np_get (actuator_trnid m) (Z.of_nat i)) as [tr|e] eqn:Etr;
      simpl; [|done].
    apply np_get_nat_Ok in Etr.
    destruct (np_get (jnt_qposadr m) (fst tr)) as [idx|e] eqn:Eidx; simpl;
      [|done].
    destruct (np_get qp idx) as [q|e] eqn:Eq; simpl; [|done].
    destruct (np_get command (Z.of_nat i)) as [a|e]; simpl; [|done].
    intros [Hi ->]%np_set_nat_Ok. split; [done|]. split; [eauto|].
    exists bt. split; [done|]. intros _. by exists tr, idx, q.
Qed.

Lemma ctrl_set_one_Raise (m : Model) (qp command c : list float) (i : nat)
    (e : exn) :
  ctrl_set_one m qp command c i = Raise e → e = IndexError.
Proof.
  unfold ctrl_set_one.
  destruct (np_get (actuator_biastype m) (Z.of_nat i)) as [bt|e1] eqn:E1;
    simpl.
  2: { intros [= <-]. by eapply np_get_Raise. }
  destruct (bt =? 0).
  - destruct (np_get command (Z.of_nat i)) as [a|e2] eqn:E2; simpl.
    + apply np_set_Raise.
    + intros [= <-]. by eapply np_get_Raise.
  - destruct (np_get (actuator_trnid m) (Z.of_nat i)) as [tr|e2] eqn:E2;
      simpl.
    2: { intros [= <-]. by eapply np_get_Raise. }
    destruct (np_get (jnt_qposadr m) (fst tr)) as [idx|e3] eqn:E3; simpl.
    2: { intros [= <-]. by eapply np_get_Raise. }
    destruct (np_get qp idx) as [q|e4] eqn:E4; simpl.
    2: { intros [= <-]. by eapply np_get_Raise. }
    destruct (np_get command (Z.of_nat i)) as [a|e5] eqn:E5; simpl.
    + apply np_set_Raise.
    + intros [= <-]. by eapply np_get_Raise.
Qed.

Lemma ctrl_loop_inv (m : Model) (qp command c c' : list float) (n : nat) :
  foldlM (ctrl_set_one m qp command) c (seq 0 n) = Ok c' →
  (n ≤ length c)%nat ∧ length c' = length c ∧
  (∀ i, (i < n)%nat → actuator_ok m qp i) ∧
  (∀ i, (n ≤ i)%nat → c' !! i = c !! i).
Proof.
  revert c'. induction n as [|n IH]; intros c'.
  - simpl. intros [= <-]. split_and!; try done; [lia|intros; lia].
  - rewrite seq_S, foldlM_app. simpl.
    destruct (foldlM _ c (seq 0 n)) as [c1|e] eqn:E1; simpl; [|done].
    destruct (IH c1 eq_refl) as (Hn & Hlen & Hok & Hrest).
    destruct (ctrl_set_one m qp command c1 n) as [c2|e] eqn:E2; simpl; [|done].
    intros [= <-].
    apply ctrl_set_one_inv in E2 as (Hi & [v ->] & Hokn).
    split_and!.
    + lia.
    + by rewrite length_insert.
    + intros i Hi'. destruct (decide (i = n)) as [->|Hne]; [done|].
      apply Hok. lia.
    + intros i Hi'. rewrite list_lookup_insert_ne by lia. apply Hrest. lia.
Qed.

(** The command that [ctrl_set_action] dispatches: the action past its
    leading [7 * nmocap] entries. *)
Lemma ctrl_set_action_command (sim : Sim) (action : list float) :
  (if (0 <? nmocap (model sim))%nat
   then snd (np_split action (nmocap (model sim) * 7)) else action)
  = drop (nmocap (model sim) * 7) action.
Proof. destruct (nmocap (model sim)); simpl; [by rewrite drop_0|done]. Qed.

Lemma ctrl_set_action_keeps (sim sim' : Sim) (action : list float) :
  ctrl_set_action sim action = Ok sim' →
  model sim' = model sim ∧
  qpos (data sim') = qpos (data sim) ∧
  mocap_pos (data sim') = mocap_pos (data sim) ∧
  mocap_quat (data sim') = mocap_quat (data sim) ∧
  body_xpos (data sim') = body_xpos (data sim) ∧
  body_xquat (data sim') = body_xquat (data sim).
Proof.
  unfold ctrl_set_action.
  destruct (ctrl (data sim)) as [c|].
  - destruct (foldlM _ c _) as [c'|e]; simpl; [|done]. by intros [= <-].
  - by intros [= <-].
Qed.

(** X1. [ctrl_set_action] writes nothing but the control slots of its
    command: whenever it returns, the model, the joint positions, the
    targets and the body poses are those before, the control array has its
    length and, past the command, its entries; without a control array
    nothing at all changes. *)
Theorem ctrl_set_action_frame (sim sim' : Sim) (action : list float) :
  ctrl_set_action sim action = Ok sim' →
  model sim' = model sim ∧
  qpos (data sim') = qpos (data sim) ∧
  mocap_pos (data sim') = mocap_pos (data sim) ∧
  mocap_quat (data sim') = mocap_quat (data sim) ∧
  body_xpos (data sim') = body_xpos (data sim) ∧
  body_xquat (data sim') = body_xquat (data sim) ∧
  (ctrl (data sim) = None → sim' = sim) ∧
  (∀ c, ctrl (data sim) = Some c →
     ∃ c', ctrl (data sim') = Some c' ∧ length c' = length c ∧
           ∀ i, (length (drop (nmocap (model sim) * 7) action) ≤ i)%nat →
                c' !! i = c !! i).
Proof.
  intros Hrun.
  destruct (ctrl_set_action_keeps _ _ _ Hrun) as (? & ? & ? & ? & ? & ?).
  split_and!; try done; revert Hrun; unfold ctrl_set_action;
    rewrite ctrl_set_action_command.
  - intros Hrun Hc. rewrite Hc in Hrun. by injection Hrun as <-.
  - intros Hrun c Hc. rewrite Hc in Hrun.
    destruct (foldlM _ c _) as [c'|e] eqn:E; simpl in Hrun; [|done].
    injection Hrun as <-. exists c'. split; [done|].
    apply ctrl_loop_inv in E as (_ & Hlen & _ & Hrest). by split.
Qed.

(** X2. [ctrl_set_action] on a simulation with a control array returns
    exactly when the array has a slot for every entry of the command and
    the metadata of each of these actuators is in range; in every other
    case it raises [IndexError], and it never raises anything else. *)
Theorem ctrl_set_action_returns_iff (sim : Sim) (action c : list float) :
  ctrl (data sim) = Some c →
  let command := drop (nmocap (model sim) * 7) action in
  let in_range :=
    (length command ≤ length c)%nat ∧
    ∀ i, (i < length command)%nat →
         actuator_ok (model sim) (qpos (data sim)) i in
  ((∃ sim', ctrl_set_action sim action = Ok sim') ↔ in_range) ∧
  (ctrl_set_action sim action = Raise IndexError ↔ ¬ in_range) ∧
  (∀ e, ctrl_set_action sim action = Raise e → e = IndexError).
Proof.
  intros Hc command in_range.
  assert (∀ e, ctrl_set_action sim action = Raise e → e = IndexError) as Hexn.
  { intros e. unfold ctrl_set_action. rewrite ctrl_set_action_command, Hc.
    destruct (foldlM _ c _) as [c'|e'] eqn:E; simpl; [done|].
    intros [= <-]. eapply (foldlM_Raise (fun e => e = IndexError)); [|exact E].
    intros a x e'' H. by eapply ctrl_set_one_Raise. }
  assert ((∃ sim', ctrl_set_action sim action = Ok sim') ↔ in_range) as Hiff.
  { split.
    - intros [sim' Hrun]. unfold ctrl_set_action in Hrun.
      rewrite ctrl_set_action_command, Hc in Hrun.
      destruct (foldlM _ c _) as [c'|e] eqn:E; simpl in Hrun; [|done].
      apply ctrl_loop_inv in E as (Hn & _ & Hok & _). by split.
    - intros [Hlen Hok].
      destruct (ctrl_loop (model sim) (qpos (data sim)) command c
                  (length command)) as (c' & Hrun & _); [lia|done|done|].
      eexists. unfold ctrl_set_action.
      rewrite ctrl_set_action_command, Hc. fold command. by rewrite Hrun. }
  split; [done|]. split; [|done]. split.
  - intros Hr Hin. apply Hiff in Hin as [sim' Hrun]. congruence.
  - intros Hnot.
    destruct (ctrl_set_action sim action) as [sim'|e] eqn:E.
    + exfalso. apply Hnot, Hiff. eauto.
    + by rewrite (Hexn e eq_refl).
Qed.

(** ** [reset_mocap2body_xpos] and [mocap_set_action]: edges and frame *)

Lemma is_target_range (sim : Sim) (o id : Z) :
  sim_shapes sim → is_target (model sim) o id →
  0 ≤ id < Z.of_nat (nmocap (model sim)).
Proof.
  intros Hs [Hg Hne]. apply np_get_elem_of in Hg.
  pose proof (proj1 (Forall_forall _ _) (shape_mocapid sim Hs) id Hg) as Hb.
  simpl in Hb. lia.
Qed.

Lemma resolves_range (sim : Sim) (o1 o2 id body : Z) :
  sim_shapes sim → resolves (model sim) o1 o2 id body →
  0 ≤ id < Z.of_nat (nmocap (model sim)).
Proof.
  intros Hs [[Ht _]|(_ & Ht & _)]; by eapply is_target_range.
Qed.

Section MocapEdges.

Variable EQ_WELD : Z.

#[local] Arguments weld_plan : simpl never.

Lemma weld_endpoints_Raise (m : Model) (o1 o2 : Z) (e : exn) :
  weld_endpoints m o1 o2 = Raise e → e = AssertionError ∨ e = IndexError.
Proof.
  unfold weld_endpoints.
  destruct (np_get (body_mocapid m) o1) as [id1|e1] eqn:E1; simpl.
  2: { intros [= <-]. right. by eapply np_get_Raise. }
  destruct (negb (id1 =? -1)); simpl.
  - destruct (id1 =? -1); [|done]. intros [= <-]. by left.
  - destruct (np_get (body_mocapid m) o2) as [id2|e2] eqn:E2; simpl.
    + destruct (id2 =? -1); [|done]. intros [= <-]. by left.
    + intros [= <-]. right. by eapply np_get_Raise.
Qed.

Lemma weld_plan_Raise (m : Model) (bxp : list vec3) (bxq : list quat)
    (np nq : nat) (w : Z * Z * Z) (e : exn) :
  weld_plan EQ_WELD m bxp bxq np nq w = Raise e →
  e = AssertionError ∨ e = IndexError.
Proof.
  destruct w as [[ty o1] o2]. unfold weld_plan.
  destruct (negb (ty =? EQ_WELD)); [done|].
  destruct (weld_endpoints m o1 o2) as [[id body]|e1] eqn:Er; simpl.
  2: { intros [= <-]. by eapply weld_endpoints_Raise. }
  destruct (np_get bxp body) as [p|e1] eqn:Ep; simpl.
  2: { intros [= <-]. right. by eapply np_get_Raise. }
  destruct (np_index np id) as [k1|e1] eqn:Ek1; simpl.
  2: { intros [= <-]. right. by eapply np_index_Raise. }
  destruct (np_get bxq body) as [q|e1] eqn:Eq; simpl.
  2: { intros [= <-]. right. by eapply np_get_Raise. }
  destruct (np_index nq id) as [k2|e1] eqn:Ek2; simpl; [done|].
  intros [= <-]. right. by eapply np_index_Raise.
Qed.

Lemma welds_plan_Raise (m : Model) (bxp : list vec3) (bxq : list quat)
    (np nq : nat) (l : list (Z * Z * Z)) (e : exn) :
  welds_plan EQ_WELD m bxp bxq np nq l = Raise e →
  e = AssertionError ∨ e = IndexError.
Proof.
  induction l as [|w l IH]; simpl; [done|].
  destruct (weld_plan EQ_WELD m bxp bxq np nq w) as [pl|e1] eqn:E; simpl.
  - destruct (welds_plan EQ_WELD m bxp bxq np nq l) as [rest|e2]; simpl;
      [done|].
    intros [= <-]. by apply IH.
  - intros [= <-]. by eapply weld_plan_Raise.
Qed.

Lemma welds_plan_no_weld (m : Model) (bxp : list vec3) (bxq : list quat)
    (np nq : nat) (l : list (Z * Z * Z)) :
  Forall (fun w => fst (fst w) ≠ EQ_WELD) l →
  welds_plan EQ_WELD m bxp bxq np nq l = Ok ([], []).
Proof.
  induction l as [|[[ty o1] o2] l IH]; intros Hl; simpl; [done|].
  apply Forall_cons in Hl as [Hty Hl]. simpl in Hty.
  unfold weld_plan. rewrite (proj2 (Z.eqb_neq ty EQ_WELD) Hty). simpl.
  by rewrite IH.
Qed.

Lemma reset_mocap2body_xpos_Raise (sim : Sim) (e : exn) :
  reset_mocap2body_xpos EQ_WELD sim = Raise e →
  e = AssertionError ∨ e = IndexError.
Proof.
  rewrite reset_mocap2body_xpos_plan. unfold sim_plan.
  destruct (welds_plan _ _ _ _ _ _ _) as [pl|e1] eqn:E; simpl; [done|].
  intros [= <-]. by eapply welds_plan_Raise.
Qed.

Lemma np_iadd_rows_length (a b r : list vec3) :
  np_iadd_rows a b = Ok r → length r = length a.
Proof.
  unfold np_iadd_rows. destruct (Nat.eqb (length a) (length b)) eqn:E.
  - apply Nat.eqb_eq in E. intros [= <-]. rewrite length_zip_with. lia.
  - destruct b as [|d [|? ?]]; try done. intros [= <-]. apply length_map.
Qed.

Lemma np_iadd_rows_Raise (a b : list vec3) (e : exn) :
  np_iadd_rows a b = Raise e → e = ValueError.
Proof.
  unfold np_iadd_rows. destruct (Nat.eqb (length a) (length b)); [done|].
  destruct b as [|d [|? ?]]; try done; by intros [= <-].
Qed.

(** What [mocap_set_action] leaves alone. *)
Lemma mocap_set_action_inv (sim sim' : Sim) (action : list float) :
  mocap_set_action EQ_WELD sim action = Ok sim' →
  model sim' = model sim ∧
  ctrl (data sim') = ctrl (data sim) ∧
  qpos (data sim') = qpos (data sim) ∧
  body_xpos (data sim') = body_xpos (data sim) ∧
  body_xquat (data sim') = body_xquat (data sim) ∧
  length (mocap_pos (data sim')) = length (mocap_pos (data sim)) ∧
  length (mocap_quat (data sim')) = length (mocap_quat (data sim)).
Proof.
  unfold mocap_set_action.
  destruct (0 <? nmocap (model sim))%nat; [|by intros [= <-]].
  destruct (np_reshape7 _ _) as [rows|e]; simpl; [|done].
  destruct (reset_mocap2body_xpos EQ_WELD sim) as [sim1|e] eqn:E; simpl;
    [|done].
  apply reset_mocap2body_xpos_frame in E
    as (Hm & Hbp & Hbq & Hc & Hq & Hlp & Hlq).
  destruct (np_iadd_rows _ _) as [pos|e] eqn:Ea; simpl; [|done].
  apply np_iadd_rows_length in Ea.
  intros [= <-]. simpl. split_and!; try done; congruence.
Qed.

(** X3. The edges of [mocap_set_action]: a model without mocap target is
    left as it is; an action shorter than [7 * nmocap] raises
    [ValueError], at the reshape; the only exceptions are [ValueError],
    [AssertionError] and [IndexError]; and a call that returns has changed
    neither the model, nor the controls, nor the joint positions, nor the
    body poses, nor the number of targets. *)
Theorem mocap_set_action_edges (sim : Sim) (action : list float) :
  (nmocap (model sim) = 0%nat →
   mocap_set_action EQ_WELD sim action = Ok sim) ∧
  ((0 < nmocap (model sim))%nat →
   (length action < nmocap (model sim) * 7)%nat →
   mocap_set_action EQ_WELD sim action = Raise ValueError) ∧
  (∀ e, mocap_set_action EQ_WELD sim action = Raise e →
        e = ValueError ∨ e = AssertionError ∨ e = IndexError) ∧
  (∀ sim', mocap_set_action EQ_WELD sim action = Ok sim' →
     model sim' = model sim ∧
     ctrl (data sim') = ctrl (data sim) ∧
     qpos (data sim') = qpos (data sim) ∧
     body_xpos (data sim') = body_xpos (data sim) ∧
     body_xquat (data sim') = body_xquat (data sim) ∧
     length (mocap_pos (data sim')) = length (mocap_pos (data sim)) ∧
     length (mocap_quat (data sim')) = length (mocap_quat (data sim))).
Proof.
  split_and!.
  - intros Hn. unfold mocap_set_action. by rewrite Hn.
  - intros Hn Hlen. unfold mocap_set_action, np_reshape7, np_split.
    replace (0 <? nmocap (model sim))%nat with true
      by (symmetry; by apply Nat.ltb_lt).
    simpl. rewrite length_take.
    replace (Nat.eqb _ _) with false; [done|].
    symmetry. apply Nat.eqb_neq. lia.
  - intros e. unfold mocap_set_action.
    destruct (0 <? nmocap (model sim))%nat; [|done].
    unfold np_reshape7. destruct (Nat.eqb _ _); simpl.
    2: { intros [= <-]. by left. }
    destruct (reset_mocap2body_xpos EQ_WELD sim) as [sim1|e1] eqn:E; simpl.
    + destruct (np_iadd_rows _ _) as [pos|e2] eqn:Ea; simpl; [done|].
      intros [= <-]. left. by eapply np_iadd_rows_Raise.
    + intros [= <-]. right. by eapply reset_mocap2body_xpos_Raise.
  - intros sim'. apply mocap_set_action_inv.
Qed.

(** X4. A target that no weld resolves to is not resynced by
    [mocap_set_action]: it keeps its orientation and moves by its delta
    from where it was. *)
Theorem mocap_set_action_unwelded (sim sim' : Sim) (action : list float)
    (k : nat) :
  sim_shapes sim →
  (nmocap (model sim) * 7 ≤ length action)%nat →
  (k < nmocap (model sim))%nat →
  not_resolved_in EQ_WELD (model sim) (constraints (model sim)) (Z.of_nat k) →
  mocap_set_action EQ_WELD sim action = Ok sim' →
  ∃ p q dl,
    mocap_pos (data sim) !! k = Some p ∧
    mocap_quat (data sim) !! k = Some q ∧
    pos_delta (nmocap (model sim)) action !! k = Some dl ∧
    mocap_pos (data sim') !! k = Some (vec3_add p dl) ∧
    mocap_quat (data sim') !! k = Some q.
Proof.
  intros Hs Hlen Hk Hfree Hrun.
  rewrite mocap_set_action_unfold in Hrun;
    [|lia|done|apply (shape_mocap_pos sim Hs)].
  rewrite reset_mocap2body_xpos_plan in Hrun. unfold sim_plan in Hrun.
  destruct (welds_plan _ _ _ _ _ _ _) as [pl|e] eqn:Epl; simpl in Hrun;
    [|done].
  injection Hrun as <-.
  destruct (welds_plan_slots EQ_WELD _ _ _ _ _ _ _ Epl) as [Hs1 Hs2].
  destruct (lookup_lt_is_Some_2 (mocap_pos (data sim)) k) as [p Hp];
    [by rewrite (shape_mocap_pos sim Hs)|].
  destruct (lookup_lt_is_Some_2 (mocap_quat (data sim)) k) as [q Hq];
    [by rewrite (shape_mocap_quat sim Hs)|].
  destruct (lookup_lt_is_Some_2 (pos_delta (nmocap (model sim)) action) k)
    as [dl Hdl]; [by rewrite length_pos_delta|].
  exists p, q, dl. split_and!; try done; simpl.
  - rewrite lookup_zip_with, writes_lookup_ne, Hp, Hdl; [done|].
    intros kv Hkv Heq.
    destruct (Hs1 kv Hkv) as (o1 & o2 & id & body & Hin & Hr & Hidx).
    pose proof (resolves_range sim _ _ _ _ Hs Hr) as Hid.
    rewrite np_index_range in Hidx by (by rewrite (shape_mocap_pos sim Hs)).
    injection Hidx as Hidx. apply (Hfree _ _ _ _ Hin Hr). lia.
  - rewrite writes_lookup_ne, Hq; [done|].
    intros kv Hkv Heq.
    destruct (Hs2 kv Hkv) as (o1 & o2 & id & body & Hin & Hr & Hidx).
    pose proof (resolves_range sim _ _ _ _ Hs Hr) as Hid.
    rewrite np_index_range in Hidx by (by rewrite (shape_mocap_quat sim Hs)).
    injection Hidx as Hidx. apply (Hfree _ _ _ _ Hin Hr). lia.
Qed.

(** X5. [reset_mocap2body_xpos] is idempotent, and it writes target poses
    only: a second resync changes nothing, and the model, the controls, the
    joint positions, the body poses and the number of targets are those
    before the first. *)
Theorem reset_mocap2body_xpos_idempotent (sim sim1 : Sim) :
  reset_mocap2body_xpos EQ_WELD sim = Ok sim1 →
  reset_mocap2body_xpos EQ_WELD sim1 = Ok sim1 ∧
  model sim1 = model sim ∧
  ctrl (data sim1) = ctrl (data sim) ∧
  qpos (data sim1) = qpos (data sim) ∧
  body_xpos (data sim1) = body_xpos (data sim) ∧
  body_xquat (data sim1) = body_xquat (data sim) ∧
  length (mocap_pos (data sim1)) = length (mocap_pos (data sim)) ∧
  length (mocap_quat (data sim1)) = length (mocap_quat (data sim)).
Proof.
  intros Hrun. split; [by eapply reset_mocap2body_xpos_idemp|].
  apply reset_mocap2body_xpos_frame in Hrun
    as (Hm & Hbp & Hbq & Hc & Hq & Hlp & Hlq).
  by split_and!.
Qed.

(** X6. [reset_mocap2body_xpos] does nothing when one of the three
    constraint arrays is missing or when no constraint is a weld, and the
    only exceptions it raises are [AssertionError] and [IndexError]. *)
Theorem reset_mocap2body_xpos_noop (sim : Sim) :
  (eq_type (model sim) = None ∨ eq_obj1id (model sim) = None ∨
   eq_obj2id (model sim) = None →
   reset_mocap2body_xpos EQ_WELD sim = Ok sim) ∧
  (Forall (fun w => fst (fst w) ≠ EQ_WELD) (constraints (model sim)) →
   reset_mocap2body_xpos EQ_WELD sim = Ok sim) ∧
  (∀ e, reset_mocap2body_xpos EQ_WELD sim = Raise e →
        e = AssertionError ∨ e = IndexError).
Proof.
  split_and!.
  - unfold reset_mocap2body_xpos.
    intros [H|[H|H]]; rewrite H; try done;
      destruct (eq_type (model sim)); try done;
      destruct (eq_obj1id (model sim)); done.
  - intros Hno. rewrite reset_mocap2body_xpos_plan. unfold sim_plan.
    rewrite welds_plan_no_weld by done. simpl.
    rewrite apply_plan_nil. by destruct sim.
  - intros e. apply reset_mocap2body_xpos_Raise.
Qed.

(** ** [_set_action] and the number of mocap targets *)

Lemma _set_action_encode_length (action command : list float) :
  _set_action_encode action = Ok command →
  length action = 4%nat ∧ length command = 9%nat.
Proof.
  destruct action as [|? [|? [|? [|? [|? ?]]]]]; try done.
  by intros [= <-].
Qed.

(** X7. [_set_action] builds a command of nine entries, seven of them for
    one target: on a model with two or more mocap targets every 4-vector
    action raises [ValueError], at the reshape in [mocap_set_action]. *)
Theorem _set_action_two_targets (sim : Sim) (action : list float) :
  (2 ≤ nmocap (model sim))%nat → length action = 4%nat →
  _set_action EQ_WELD sim action = Raise ValueError.
Proof.
  intros Hn Hlen.
  destruct action as [|dx [|dy [|dz [|grip [|? ?]]]]]; try done.
  unfold _set_action. simpl.
  assert (∃ sim0, ctrl_set_action sim
            [(dx * 0.05)%float; (dy * 0.05)%float; (dz * 0.05)%float;
             1%float; 0%float; 1%float; 0%float; grip; grip] = Ok sim0
          ∧ model sim0 = model sim) as (sim0 & -> & Hm).
  { unfold ctrl_set_action. rewrite ctrl_set_action_command.
    rewrite drop_ge by (simpl; lia). simpl.
    destruct (ctrl (data sim)); simpl; eauto. }
  simpl. unfold mocap_set_action, np_reshape7, np_split. rewrite Hm.
  replace (0 <? nmocap (model sim))%nat with true
    by (symmetry; apply Nat.ltb_lt; lia).
  cbn [fst]. rewrite length_take.
  replace (Nat.eqb _ _) with false; [done|].
  symmetry. apply Nat.eqb_neq. simpl. lia.
Qed.

(** X8. On a model with one mocap target, [_set_action] hands the
    actuators the gripper pair only, and hands it to actuators 0 and 1:
    when it returns on [[dx, dy, dz, grip]], slots 0 and 1 of the control
    array hold what the dispatch of [grip] leaves there, the array has its
    length and, from slot 2 on, its entries, and the joint positions, the
    body poses and the model are those before. *)
Theorem _set_action_one_target (sim sim' : Sim) (dx dy dz grip : float)
    (c : list float) :
  nmocap (model sim) = 1%nat → ctrl (data sim) = Some c →
  _set_action EQ_WELD sim [dx; dy; dz; grip] = Ok sim' →
  ∃ c', ctrl (data sim') = Some c' ∧ length c' = length c ∧
        (2 ≤ length c)%nat ∧
        dispatched (model sim) (qpos (data sim)) grip c' 0 ∧
        dispatched (model sim) (qpos (data sim)) grip c' 1 ∧
        (∀ i, (2 ≤ i)%nat → c' !! i = c !! i) ∧
        model sim' = model sim ∧
        qpos (data sim') = qpos (data sim) ∧
        body_xpos (data sim') = body_xpos (data sim) ∧
        body_xquat (data sim') = body_xquat (data sim).
Proof.
  intros Hn Hc. unfold _set_action. simpl.
  set (command := [_; _; _; _; _; _; _; _; _]).
  destruct (ctrl_set_action sim command) as [sim0|e] eqn:E0; simpl; [|done].
  intros (Hm & Hc' & Hq & Hbp & Hbq & _)%mocap_set_action_inv.
  unfold ctrl_set_action in E0.
  rewrite ctrl_set_action_command, Hc, Hn in E0.
  change (drop (1 * 7) command) with [grip; grip] in E0.
  destruct (foldlM _ c _) as [c'|e] eqn:E; simpl in E0; [|done].
  injection E0 as <-. simpl in Hm, Hc', Hq, Hbp, Hbq.
  change (length [grip; grip]) with 2%nat in E.
  pose proof E as Einv.
  apply ctrl_loop_inv in Einv as (Hle & Hlc & Hok & Hrest).
  destruct (ctrl_loop (model sim) (qpos (data sim)) [grip; grip] c 2)
    as (c'' & E' & _ & Hdisp & _); [simpl; lia|done|done|].
  rewrite E in E'. injection E' as <-.
  exists c'. split_and!; try done; try congruence.
  - apply Hdisp; [lia|done].
  - apply Hdisp; [lia|done].
Qed.

End MocapEdges.

(** ** [step], [reset_model] and the goal *)

Lemma np_broadcast_mismatch (f : float → float → float) (a b : list float) :
  length a ≠ length b → length a ≠ 1%nat → length b ≠ 1%nat →
  np_broadcast f a b = Raise ValueError.
Proof.
  intros Hab Ha Hb. unfold np_broadcast.
  rewrite (proj2 (Nat.eqb_neq _ _) Hab).
  destruct a as [|x [|? ?]], b as [|y [|? ?]]; simpl in *; done.
Qed.

Section StepMore.

Variable EQ_WELD : Z.
Variable Robot : Type.
Variable Controller : Type.
Variable sim_step : Sim → Sim.
Variable robot_get_obs :
  Robot → Sim → float →
  float * list float * list float * list float * list float * Robot.
Variable make_controller : Sim → Controller.
Variable robot_reset : Robot → Sim → list float → list float → Robot * Sim.
Variable sim_forward : Sim → Sim.

(** X9. What [step] returns.  It never returns on [KitchenV0]; on
    [KitchenTaskRelaxV1] the reward and the score are zero and [done] is
    [False], the goal is the one before the call, the time reported is the
    one of the observation dictionary, whose goal is the environment's, and
    the observation is the concatenation that ends with the goal ([None]
    if [goal_concat] is cleared). *)
Theorem step_returns (env env' : Env Robot Controller) (a : list float)
    (obs : option (list float)) (reward : float) (done : bool)
    (info : EnvInfo) :
  step EQ_WELD sim_step robot_get_obs make_controller env a
  = Ok (env', (obs, reward, done, info)) →
  cls env = KitchenTaskRelaxV1 ∧
  reward = 0%float ∧ done = false ∧ info_score info = 0%float ∧
  cls env' = cls env ∧ goal env' = goal env ∧
  goal_concat env' = goal_concat env ∧ obs_dim env' = obs_dim env ∧
  ∃ o, obs_dict env' = Some o ∧ info_time info = obs_t o ∧
       obs_goal o = goal env ∧
       obs = if goal_concat env
             then Some (obs_qp o ++ obs_obj_qp o ++ goal env) else None.
Proof.
  unfold step.
  destruct (step_action make_controller env a) as [[env1 a1]|e] eqn:E1;
    simpl; [|done].
  apply step_action_env in E1 as (Hc & Hg & Hgc & Hd & _).
  destruct (_set_action EQ_WELD (sim env1) a1) as [s|e]; simpl; [|done].
  unfold _get_obs. simpl.
  destruct (robot_get_obs _ _ _) as [[[[[t qp] qv] obj_qp] obj_qv] r].
  simpl. rewrite Hc. destruct (cls env); simpl; [done|].
  intros [= <- <- <- <- <-]. simpl.
  split_and!; try done.
  eexists. split; [reflexivity|]. simpl. rewrite Hg, Hgc. done.
Qed.

(** X10. The shape that [step] asks of its argument.  While the
    environment is initializing the argument is not looked at: any two
    arguments give the same result.  Afterwards an argument that has
    neither the length of [act_amp] (9 after [__init__]) nor length 1
    raises [ValueError]. *)
Theorem step_argument_shape (env : Env Robot Controller) :
  (initializing env = true →
   ∀ a b, step EQ_WELD sim_step robot_get_obs make_controller env a
          = step EQ_WELD sim_step robot_get_obs make_controller env b) ∧
  (initializing env = false →
   ∀ a, length a ≠ length (act_amp env) → length a ≠ 1%nat →
        length (act_amp env) ≠ 1%nat →
        step EQ_WELD sim_step robot_get_obs make_controller env a
        = Raise ValueError).
Proof.
  split.
  - intros Hi a b. unfold step, step_action. by rewrite Hi.
  - intros Hi a Hlen H1 Hamp. unfold step, step_action. rewrite Hi.
    cbn [negb]. rewrite np_broadcast_mismatch; try done.
    + unfold np_clip. by rewrite length_map.
    + unfold np_clip. by rewrite length_map.
Qed.

(** X11. The goal across [set_goal] and [reset_model]: [reset_model] does
    not resample, so after [set_goal g] the environment it leaves has the
    goal [g], its observation dictionary has the goal [g], and the
    observation it returns is the read-out of the simulation that
    [robot.reset] and [sim.forward] left, followed by [g]. *)
Theorem reset_model_keeps_goal (init_qpos init_qvel g : list float)
    (env : Env Robot Controller) :
  goal_concat env = true →
  ∃ r s t qp qv obj_qp obj_qv r',
    robot_reset (robot env) (sim env) init_qpos init_qvel = (r, s) ∧
    robot_get_obs r (sim_forward s) (robot_noise_ratio env)
    = (t, qp, qv, obj_qp, obj_qv, r') ∧
    let res := reset_model robot_get_obs robot_reset sim_forward
                 init_qpos init_qvel (set_goal env g) in
    snd res = Some (qp ++ obj_qp ++ g) ∧
    goal (fst res) = g ∧
    _get_task_goal (fst res) = g ∧
    sim (fst res) = sim_forward s ∧
    robot (fst res) = r' ∧
    (obs_goal <$> obs_dict (fst res)) = Some g.
Proof.
  intros Hgc. unfold reset_model. simpl.
  destruct (robot_reset _ _ _ _) as [r s]. simpl.
  unfold _get_obs. simpl.
  destruct (robot_get_obs _ _ _) as [[[[[t qp] qv] obj_qp] obj_qv] r'] eqn:E.
  exists r, s, t, qp, qv, obj_qp, obj_qv, r'. simpl. rewrite Hgc.
  by split_and!.
Qed.

End StepMore.

(** ** [evaluate_success]: when it raises, and what it depends on *)

Lemma np_get_minus_one {A : Type} (l : list A) :
  np_get l (-1) = match last l with
                  | Some x => Ok x
                  | None => Raise IndexError
                  end.
Proof.
  destruct l as [|x l]; [done|].
  destruct (np_get_last (x :: l)) as (y & Hy & ->); [done|]. by rewrite Hy.
Qed.

Lemma success_loop_cases (paths : list Path) (acc : Z) :
  (Forall (fun p => bonus p ≠ []) paths ∧
   foldlM (fun n path => b ← np_get (bonus path) (-1);
                         Ok (n + Z.b2z (py_bool b))) acc paths
   = Ok (acc + Z.of_nat (length (filter final_bonus_truthy paths)))) ∨
  (¬ Forall (fun p => bonus p ≠ []) paths ∧
   foldlM (fun n path => b ← np_get (bonus path) (-1);
                         Ok (n + Z.b2z (py_bool b))) acc paths
   = Raise IndexError).
Proof.
  revert acc. induction paths as [|p paths IH]; intros acc.
  - left. split; [constructor|]. simpl. f_equal. lia.
  - destruct (bonus p) as [|b bs] eqn:Ep.
    + right. split.
      * intros H. apply Forall_cons in H as [H _]. done.
      * simpl. by rewrite Ep.
    + destruct (IH (acc + Z.b2z (py_bool (default b (last (b :: bs))))))
        as [[Hall Hrun]|[Hnot Hrun]].
      * left. split; [constructor; [by rewrite Ep|done]|].
        rewrite success_loop; [done|].
        constructor; [by rewrite Ep|done].
      * right. split.
        -- intros H. apply Forall_cons in H as [_ H]. done.
        -- simpl. rewrite Ep, np_get_minus_one.
           destruct (last (b :: bs)) as [x|] eqn:El; [|by destruct bs].
           simpl in *. exact Hrun.
Qed.

Section EvaluateMore.

Variable np_mean : list float → float.
Variable py_round : float → Z → float.

(** X12. When [evaluate_success] returns.  On a non-empty list of
    rollouts it returns exactly when every rollout has a recorded bonus,
    and raises [IndexError] otherwise; [ZeroDivisionError] and
    [IndexError] are the only exceptions it raises. *)
Theorem evaluate_success_returns_iff (paths : list Path) :
  (paths ≠ [] →
   ((∃ v, evaluate_success np_mean py_round paths = Ok v) ↔
    Forall (fun p => bonus p ≠ []) paths) ∧
   (evaluate_success np_mean py_round paths = Raise IndexError ↔
    ¬ Forall (fun p => bonus p ≠ []) paths)) ∧
  (∀ e, evaluate_success np_mean py_round paths = Raise e →
        e = ZeroDivisionError ∨ e = IndexError).
Proof.
  rewrite evaluate_success_loops. split.
  - intros Hne.
    assert ((Z.of_nat (length paths) =? 0) = false) as Hlen.
    { apply Z.eqb_neq. destruct paths; [done|simpl; lia]. }
    destruct (success_loop_cases paths 0) as [[Hall ->]|[Hnot ->]]; simpl;
      unfold py_truediv; rewrite ?Hlen; simpl.
    + split; split; try done; eauto.
    + split; split; try done. by intros [v ?].
  - intros e.
    destruct (success_loop_cases paths 0) as [[Hall ->]|[Hnot ->]]; simpl.
    + unfold py_truediv. destruct (_ =? 0); simpl; [|done].
      intros [= <-]. by left.
    + intros [= <-]. by right.
Qed.

(** X13. [evaluate_success] reads of a rollout its scores and its last
    bonus, as a truth value: two lists of rollouts that agree, rollout by
    rollout, on the scores and on the truth of the last bonus (or on its
    absence) have the same result, whatever the earlier bonuses. *)
Theorem evaluate_success_last_bonus (ps qs : list Path) :
  Forall2 (fun p q => score p = score q ∧
                      (py_bool <$> last (bonus p))
                      = (py_bool <$> last (bonus q))) ps qs →
  evaluate_success np_mean py_round ps
  = evaluate_success np_mean py_round qs.
Proof.
  intros H. rewrite !evaluate_success_loops.
  assert (spec_mean_score np_mean ps = spec_mean_score np_mean qs) as ->.
  { unfold spec_mean_score. f_equal.
    induction H as [|p q ps qs [Hs _] _ IH]; simpl; [done|].
    by rewrite Hs, IH. }
  rewrite (Forall2_length _ _ _ H).
  assert (∀ acc,
            foldlM (fun n path => b ← np_get (bonus path) (-1);
                                  Ok (n + Z.b2z (py_bool b))) acc ps
            = foldlM (fun n path => b ← np_get (bonus path) (-1);
                                    Ok (n + Z.b2z (py_bool b))) acc qs)
    as ->; [|done].
  induction H as [|p q ps qs [_ Hb] _ IH]; intros acc; simpl; [done|].
  rewrite !np_get_minus_one.
  destruct (last (bonus p)) as [x|], (last (bonus q)) as [y|];
    simpl in *; try done.
  injection Hb as ->. apply IH.
Qed.

End EvaluateMore.

(** ** [reset_mocap_welds] *)

Section ResetMocapWeldsProps.

Variable EQ_WELD : Z.
Variable sim_forward : Sim → EqData → Sim.

Lemma reset_weld_row_inv (tys : list Z) (rows rows' : list (list float))
    (i : nat) :
  reset_weld_row EQ_WELD tys rows i = Ok rows' →
  ∃ ty, tys !! i = Some ty ∧
        ((ty ≠ EQ_WELD ∧ rows' = rows) ∨
         (ty = EQ_WELD ∧ (i < length rows)%nat ∧
          rows' = <[i:=weld_identity]> rows)).
Proof.
  unfold reset_weld_row.
  destruct (np_get tys (Z.of_nat i)) as [ty|e] eqn:Et; simpl; [|done].
  apply np_get_nat_Ok in Et. intros Hrun. exists ty. split; [done|].
  revert Hrun. destruct (Z.eqb_spec ty EQ_WELD) as [->|Hne].
  - destruct (np_get rows (Z.of_nat i)) as [row|e]; simpl; [|done].
    unfold np_assign_row.
    destruct (Nat.eqb (length weld_identity) (length row)); simpl; [|done].
    intros [Hi ->]%np_set_nat_Ok. right. done.
  - intros [= <-]. by left.
Qed.

Lemma reset_weld_rows_inv (tys : list Z) (rows rows' : list (list float))
    (n : nat) :
  foldlM (reset_weld_row EQ_WELD tys) rows (seq 0 n) = Ok rows' →
  length rows' = length rows ∧
  (∀ i, (i < n)%nat →
     ∃ ty, tys !! i = Some ty ∧
           rows' !! i = if ty =? EQ_WELD then Some weld_identity
                        else rows !! i) ∧
  (∀ i, (n ≤ i)%nat → rows' !! i = rows !! i).
Proof.
  revert rows'. induction n as [|n IH]; intros rows'.
  - simpl. intros [= <-]. split_and!; try done. intros; lia.
  - rewrite seq_S, foldlM_app. simpl.
    destruct (foldlM _ rows (seq 0 n)) as [r1|e] eqn:E1; simpl; [|done].
    destruct (IH r1 eq_refl) as (Hlen & Hdone & Hrest).
    destruct (reset_weld_row EQ_WELD tys r1 n) as [r2|e] eqn:E2; simpl;
      [|done].
    intros [= <-].
    apply reset_weld_row_inv in E2
      as (ty & Hty & [[Hne ->]|(-> & Hi & ->)]).
    + split_and!; try done.
      * intros i Hi. destruct (decide (i = n)) as [->|Hin].
        -- exists ty. split; [done|].
           rewrite (proj2 (Z.eqb_neq _ _) Hne). by apply Hrest.
        -- apply Hdone. lia.
      * intros i Hi. apply Hrest. lia.
    + split_and!.
      * by rewrite length_insert.
      * intros i Hi'. destruct (decide (i = n)) as [->|Hin].
        -- exists EQ_WELD. split; [done|]. rewrite Z.eqb_refl.
           by apply list_lookup_insert_eq.
        -- rewrite list_lookup_insert_ne by done. apply Hdone. lia.
      * intros i Hi'. rewrite list_lookup_insert_ne by lia. apply Hrest. lia.
Qed.

Lemma reset_weld_rows_fixed (tys : list Z) (rows : list (list float))
    (n : nat) :
  (n ≤ length rows)%nat →
  (∀ i, (i < n)%nat →
     ∃ ty, tys !! i = Some ty ∧
           (ty = EQ_WELD → rows !! i = Some weld_identity)) →
  foldlM (reset_weld_row EQ_WELD tys) rows (seq 0 n) = Ok rows.
Proof.
  induction n as [|n IH]; intros Hn Hfix; [done|].
  rewrite seq_S, foldlM_app, IH; [|lia|intros; apply Hfix; lia]. simpl.
  destruct (Hfix n) as (ty & Hty & Hrow); [lia|].
  unfold reset_weld_row. rewrite (np_get_nat _ _ _ Hty). simpl.
  destruct (Z.eqb_spec ty EQ_WELD) as [->|Hne]; [|done].
  rewrite (np_get_nat _ _ _ (Hrow eq_refl)). simpl.
  rewrite np_set_nat by lia. simpl. f_equal. apply list_insert_id.
  by apply Hrow.
Qed.

(** X14. [reset_mocap_welds] rewrites the parameters of the welds and of
    nothing else.  Without a mocap target or without constraint
    parameters it only calls [sim.forward()].  With a target and
    parameters but no array of constraint types it raises [TypeError].
    Otherwise, when it returns, the table has its number of rows, the row
    of every weld is [[0, 0, 0, 1, 0, 0, 0]], every other row is as before,
    and a second call finds nothing to change. *)
Theorem reset_mocap_welds_rows (sim : Sim) (eq_data : EqData) :
  (nmocap (model sim) = 0%nat ∨ eq_data = None →
   reset_mocap_welds EQ_WELD sim_forward sim eq_data
   = NoTypeError (Ok (sim_forward sim eq_data, eq_data))) ∧
  (∀ row rows,
     (0 < nmocap (model sim))%nat → eq_type (model sim) = None →
     eq_data = Some (row :: rows) →
     reset_mocap_welds EQ_WELD sim_forward sim eq_data = TypeError) ∧
  (∀ tys rows sim' rows',
     eq_type (model sim) = Some tys → eq_data = Some rows →
     (0 < nmocap (model sim))%nat →
     reset_mocap_welds EQ_WELD sim_forward sim eq_data
     = NoTypeError (Ok (sim', Some rows')) →
     sim' = sim_forward sim (Some rows') ∧
     length rows' = length rows ∧
     (∀ i row, rows !! i = Some row →
        ∃ ty, tys !! i = Some ty ∧
              rows' !! i = if ty =? EQ_WELD then Some weld_identity
                           else Some row) ∧
     reset_mocap_welds EQ_WELD sim_forward sim (Some rows')
     = NoTypeError (Ok (sim', Some rows'))).
Proof.
  split_and!.
  - unfold reset_mocap_welds. intros [Hn| ->]; [|done].
    rewrite Hn. by destruct eq_data.
  - intros row rows Hn Hty ->. unfold reset_mocap_welds. rewrite Hty.
    by replace (0 <? nmocap (model sim))%nat with true
      by (symmetry; by apply Nat.ltb_lt).
  - intros tys rows sim' rows' Hty -> Hn. unfold reset_mocap_welds.
    rewrite Hty. replace (0 <? nmocap (model sim))%nat with true
      by (symmetry; by apply Nat.ltb_lt).
    destruct (foldlM _ rows _) as [r|e] eqn:E; simpl; [|done].
    intros [= <- <-].
    apply reset_weld_rows_inv in E as (Hlen & Hdone & _).
    split_and!; try done.
    + intros i row Hrow.
      destruct (Hdone i) as (ty & Hti & Hr); [by eapply lookup_lt_Some|].
      exists ty. split; [done|]. by rewrite Hr, Hrow.
    + rewrite reset_weld_rows_fixed; [done|lia|].
      intros i Hi. destruct (Hdone i) as (ty & Hti & Hr); [lia|].
      exists ty. split; [done|]. intros ->. by rewrite Z.eqb_refl in Hr.
Qed.

End ResetMocapWeldsProps.

(** ** [grasp] and [rotate_ee] *)

Lemma qpos_isub_Ok (sim : Sim) (i : nat) (x : float) :
  (i < length (qpos (data sim)))%nat →
  ∃ sim', qpos_isub sim (Z.of_nat i) x = Ok sim' ∧
          model sim' = model sim ∧
          length (qpos (data sim')) = length (qpos (data sim)).
Proof.
  intros Hi. unfold qpos_isub.
  destruct (lookup_lt_is_Some_2 (qpos (data sim)) i Hi) as [q Hq].
  rewrite (np_get_nat _ _ _ Hq). simpl. rewrite np_set_nat by done. simpl.
  eexists. split; [done|]. simpl. by rewrite length_insert.
Qed.

Lemma qpos_isub_short (sim : Sim) (i : nat) (x : float) :
  (length (qpos (data sim)) ≤ i)%nat →
  qpos_isub sim (Z.of_nat i) x = Raise IndexError.
Proof.
  intros Hi. unfold qpos_isub, np_get. by rewrite np_index_nat_ge.
Qed.

Section GraspProps.

Variable sim_step : Sim → Sim.

(** The physics step keeps the number of joint positions. *)
Hypothesis sim_step_nq :
  ∀ s, length (qpos (data (sim_step s))) = length (qpos (data s)).

(** X15. The bounds of [grasp] and [rotate_ee], for a physics step that
    keeps the number of joint positions.  [grasp] runs its [skip]
    iterations when the simulation has at least nine joint positions, and
    [rotate_ee] when it has at least seven; with fewer, and [skip]
    positive, the first iteration raises [IndexError]. *)
Theorem grasp_bounds (skip : nat) (sim : Sim) :
  ((9 ≤ length (qpos (data sim)))%nat →
   ∃ sim', grasp sim_step skip sim = Ok sim' ∧
           length (qpos (data sim')) = length (qpos (data sim))) ∧
  ((7 ≤ length (qpos (data sim)))%nat →
   ∃ sim', rotate_ee sim_step skip sim = Ok sim' ∧
           length (qpos (data sim')) = length (qpos (data sim))) ∧
  ((0 < skip)%nat → (length (qpos (data sim)) < 9)%nat →
   grasp sim_step skip sim = Raise IndexError) ∧
  ((0 < skip)%nat → (length (qpos (data sim)) < 7)%nat →
   rotate_ee sim_step skip sim = Raise IndexError).
Proof.
  split_and!.
  - revert sim. induction skip as [|skip IH]; intros sim Hlen; simpl.
    + eauto.
    + destruct (qpos_isub_Ok sim 7 0.0003) as (s1 & E1 & _ & H1); [lia|].
      change (Z.of_nat 7) with 7 in E1. rewrite E1. simpl.
      destruct (qpos_isub_Ok s1 8 0.0003) as (s2 & E2 & _ & H2); [lia|].
      change (Z.of_nat 8) with 8 in E2. rewrite E2. simpl.
      destruct (IH (sim_step s2)) as (sim' & Hrun & H3).
      * rewrite sim_step_nq. lia.
      * exists sim'. split; [done|]. rewrite H3, sim_step_nq. lia.
  - revert sim. induction skip as [|skip IH]; intros sim Hlen; simpl.
    + eauto.
    + destruct (qpos_isub_Ok sim 6 0.01) as (s1 & E1 & _ & H1); [lia|].
      change (Z.of_nat 6) with 6 in E1. rewrite E1. simpl.
      destruct (IH (sim_step s1)) as (sim' & Hrun & H3).
      * rewrite sim_step_nq. lia.
      * exists sim'. split; [done|]. rewrite H3, sim_step_nq. lia.
  - intros Hskip Hlen. destruct skip as [|skip]; [lia|]. simpl.
    destruct (decide (length (qpos (data sim)) ≤ 7)%nat) as [H7|H7].
    + pose proof (qpos_isub_short sim 7 0.0003 H7) as E1.
      change (Z.of_nat 7) with 7 in E1. by rewrite E1.
    + destruct (qpos_isub_Ok sim 7 0.0003) as (s1 & E1 & _ & H1); [lia|].
      change (Z.of_nat 7) with 7 in E1. rewrite E1. simpl.
      assert (length (qpos (data s1)) ≤ 8)%nat as H8 by lia.
      pose proof (qpos_isub_short s1 8 0.0003 H8) as E2.
      change (Z.of_nat 8) with 8 in E2. by rewrite E2.
  - intros Hskip Hlen. destruct skip as [|skip]; [lia|]. simpl.
    assert (length (qpos (data sim)) ≤ 6)%nat as H6 by lia.
    pose proof (qpos_isub_short sim 6 0.01 H6) as E1.
    change (Z.of_nat 6) with 6 in E1. by rewrite E1.
Qed.

End GraspProps.

(** ** [goal_space] *)

(** X16. The goal space.  It has half as many places as the observation
    space (rounded down), and in every place the bounds [-|l|] and [|l|],
    for [l] the first lower bound of the observation space; on an
    observation space without places it raises [IndexError].  For the
    observation space that [__init__] builds on [n > 0] places, the bounds
    are -8 and 8, in [n // 2] places. *)
Theorem goal_space_bounds :
  (∀ observation_space,
     low observation_space = [] →
     goal_space observation_space = Raise IndexError) ∧
  (∀ observation_space l ls,
     low observation_space = l :: ls →
     goal_space observation_space
     = Ok {| low := repeat (- abs l)%float (length (l :: ls) / 2);
             high := repeat (abs l) (length (l :: ls) / 2) |}) ∧
  (∀ n, (0 < n)%nat →
     goal_space (observation_space_init n)
     = Ok {| low := repeat (-8)%float (n / 2);
             high := repeat 8%float (n / 2) |}).
Proof.
  split_and!.
  - intros observation_space H. unfold goal_space. by rewrite H.
  - intros observation_space l ls H. unfold goal_space. by rewrite H.
  - intros n Hn. destruct n as [|n]; [lia|].
    unfold goal_space, observation_space_init. simpl.
    by rewrite !length_map, repeat_length.
Qed.

(** ** From the action to the pose of the target *)

Lemma ctrl_set_action_shapes (sim sim' : Sim) (action : list float) :
  ctrl_set_action sim action = Ok sim' → sim_shapes sim → sim_shapes sim'.
Proof.
  intros (Hm & _ & Hmp & Hmq & Hbp & Hbq)%ctrl_set_action_keeps Hs.
  destruct Hs. split; rewrite ?Hm, ?Hmp, ?Hmq, ?Hbp, ?Hbq; done.
Qed.

Lemma singleton_lookup {A : Type} (l : list A) (x : A) :
  length l = 1%nat → l !! 0%nat = Some x → l = [x].
Proof. destruct l as [|y [|? ?]]; simpl; try done. by intros _ [= ->]. Qed.

Section TargetPose.

Variable EQ_WELD : Z.
Variable Robot : Type.
Variable Controller : Type.
Variable sim_step : Sim → Sim.
Variable robot_get_obs :
  Robot → Sim → float →
  float * list float * list float * list float * list float * Robot.
Variable make_controller : Sim → Controller.

Lemma _set_action_pose (sim sim' : Sim) (dx dy dz grip : float)
    (l1 l2 : list (Z * Z * Z)) (o1 o2 id body : Z) :
  sim_shapes sim → nmocap (model sim) = 1%nat →
  constraints (model sim) = l1 ++ (EQ_WELD, o1, o2) :: l2 →
  resolves (model sim) o1 o2 id body →
  not_resolved_in EQ_WELD (model sim) l2 id →
  _set_action EQ_WELD sim [dx; dy; dz; grip] = Ok sim' →
  ∃ p q,
    body_xpos (data sim) !! Z.to_nat body = Some p ∧
    body_xquat (data sim) !! Z.to_nat body = Some q ∧
    mocap_pos (data sim')
    = [vec3_add p (dx * 0.05, dy * 0.05, dz * 0.05)%float] ∧
    mocap_quat (data sim') = [q].
Proof.
  intros Hs Hn Hl Hr Hlater. unfold _set_action. simpl.
  destruct (ctrl_set_action sim _) as [sim0|e] eqn:E0; simpl; [|done].
  intros Hrun.
  pose proof (ctrl_set_action_shapes _ _ _ E0 Hs) as Hs0.
  apply ctrl_set_action_keeps in E0 as (Hm & _ & Hmp & Hmq & Hbp & Hbq).
  assert (id = 0) as ->.
  { pose proof (resolves_range sim o1 o2 id body Hs Hr) as Hid.
    rewrite Hn in Hid. lia. }
  set (command := [_; _; _; _; _; _; _; _; _]) in Hrun.
  destruct (mocap_set_action_welded EQ_WELD sim0 sim' command l1 l2 o1 o2
              0 body)
    as (p & q & dl & Hp & Hq & Hdl & Hmp' & Hmq');
    rewrite ?Hm, ?Hn; try done; [lia|simpl; lia|].
  rewrite Hm, Hn in Hdl. injection Hdl as <-.
  rewrite Hbp in Hp. rewrite Hbq in Hq.
  apply mocap_set_action_inv in Hrun as (_ & _ & _ & _ & _ & Hlp & Hlq).
  exists p, q. split_and!; try done.
  - apply singleton_lookup; [|done].
    by rewrite Hlp, Hmp, (shape_mocap_pos sim Hs).
  - apply singleton_lookup; [|done].
    by rewrite Hlq, Hmq, (shape_mocap_quat sim Hs).
Qed.

(** X17. From the action to the pose of the target, on a model with one
    mocap target welded to a body.  After [_set_action] on
    [[dx, dy, dz, grip]] the target is at the body's position plus
    [(0.05*dx, 0.05*dy, 0.05*dz)] and has the body's orientation: the
    quaternion [[1, 0, 1, 0]] of the command does not reach it.  Every
    [step] that returns has handed the physics step the target at the
    body's position plus [(0, 0.05, 0)], whatever its argument. *)
Theorem _set_action_target_pose (env : Env Robot Controller)
    (l1 l2 : list (Z * Z * Z)) (o1 o2 id body : Z) :
  sim_shapes (sim env) → nmocap (model (sim env)) = 1%nat →
  constraints (model (sim env)) = l1 ++ (EQ_WELD, o1, o2) :: l2 →
  resolves (model (sim env)) o1 o2 id body →
  not_resolved_in EQ_WELD (model (sim env)) l2 id →
  ∃ p q,
    body_xpos (data (sim env)) !! Z.to_nat body = Some p ∧
    body_xquat (data (sim env)) !! Z.to_nat body = Some q ∧
    (∀ dx dy dz grip sim',
       _set_action EQ_WELD (sim env) [dx; dy; dz; grip] = Ok sim' →
       mocap_pos (data sim')
       = [vec3_add p (dx * 0.05, dy * 0.05, dz * 0.05)%float] ∧
       mocap_quat (data sim') = [q]) ∧
    (∀ a env' out,
       step EQ_WELD sim_step robot_get_obs make_controller env a
       = Ok (env', out) →
       ∃ s, sim env' = sim_step s ∧
            mocap_pos (data s) = [vec3_add p (0, 0.05, 0)%float] ∧
            mocap_quat (data s) = [q]).
Proof.
  intros Hs Hn Hl Hr Hlater.
  assert (0 ≤ body < Z.of_nat (length (body_mocapid (model (sim env)))))
    as Hbody.
  { destruct (shapes_resolves (sim env) EQ_WELD o1 o2 Hs)
      as (id' & body' & Hr' & _ & Hb).
    - rewrite Hl. apply elem_of_app. right. by left.
    - destruct Hr as [[? _]|(_ & ? & _)]; [left|right]; eauto.
    - by destruct (resolves_fun _ _ _ _ _ _ _ Hr Hr') as [_ ->]. }
  destruct (lookup_lt_is_Some_2 (body_xpos (data (sim env))) (Z.to_nat body))
    as [p Hp]; [rewrite (shape_body_xpos _ Hs); lia|].
  destruct (lookup_lt_is_Some_2 (body_xquat (data (sim env)))
              (Z.to_nat body))
    as [q Hq]; [rewrite (shape_body_xquat _ Hs); lia|].
  exists p, q. split; [done|]. split; [done|]. split.
  - intros dx dy dz grip sim' Hrun.
    destruct (_set_action_pose (sim env) sim' dx dy dz grip l1 l2 o1 o2 id
                body)
      as (p' & q' & Hp' & Hq' & Hmp & Hmq); try done.
    rewrite Hp in Hp'. rewrite Hq in Hq'.
    injection Hp' as <-. injection Hq' as <-. done.
  - intros a env' out. unfold step.
    destruct (step_action make_controller env a) as [[env1 a1]|e] eqn:E1;
      simpl; [|done].
    pose proof E1 as Ha.
    apply step_action_env in E1 as (_ & _ & _ & _ & _ & _ & Hsim1 & _).
    assert (a1 = [0; 1; 0; 0]%float) as ->.
    { revert Ha. unfold step_action.
      destruct (if negb (initializing env) then _ else _) as [[? ?]|?];
        simpl; [|done].
      by intros [= _ <-]. }
    destruct (_set_action EQ_WELD (sim env1) _) as [s|e] eqn:E2; simpl;
      [|done].
    rewrite Hsim1 in E2.
    destruct (_set_action_pose (sim env) s 0 1 0 0 l1 l2 o1 o2 id body)
      as (p' & q' & Hp' & Hq' & Hmp & Hmq); try done.
    rewrite Hp in Hp'. rewrite Hq in Hq'.
    injection Hp' as <-. injection Hq' as <-.
    unfold _get_obs. simpl.
    destruct (robot_get_obs _ _ _) as [[[[[t qp] qv] obj_qp] obj_qv] r].
    simpl. destruct (cls env1); simpl; [done|].
    intros [= <- _]. simpl. exists s. done.
Qed.

End TargetPose.

(** * The further properties at the example models *)

Lemma sim_two_targets_shapes : sim_shapes sim_two_targets.
Proof.
  split; simpl; try reflexivity.
  - repeat constructor; lia.
  - intros o1s [= <-]. repeat constructor; lia.
  - intros o2s [= <-]. repeat constructor; lia.
Qed.

Lemma sim_two_targets_unwelded :
  not_resolved_in EQ_WELD_mujoco (model sim_two_targets)
    (constraints (model sim_two_targets)) 1.
Proof.
  intros o1 o2 id' body' Hin Hr. simpl in Hin.
  apply list_elem_of_singleton in Hin. injection Hin as -> ->.
  assert (resolves (model sim_two_targets) 1 2 0 2) as Hr0.
  { left. split; [|reflexivity]. split; [reflexivity|lia]. }
  destruct (resolves_fun _ _ _ _ _ _ _ Hr0 Hr) as [-> _]. lia.
Qed.

Lemma ctrl_set_action_frame_witness :
  ∃ sim', ctrl_set_action sim_ex action_ex = Ok sim' ∧
          model sim' = model sim_ex ∧
          qpos (data sim') = qpos (data sim_ex) ∧
          mocap_pos (data sim') = mocap_pos (data sim_ex).
Proof.
  destruct (ctrl_set_action sim_ex action_ex) as [sim'|e] eqn:E;
    [|vm_compute in E; discriminate E].
  destruct (ctrl_set_action_frame sim_ex sim' action_ex E)
    as (Hm & Hq & Hp & _).
  exists sim'. split; [reflexivity|]. split; [exact Hm|].
  split; [exact Hq|exact Hp].
Defined.

Lemma ctrl_set_action_returns_iff_witness :
  (∃ sim', ctrl_set_action sim_ex action_ex = Ok sim') ∧
  ctrl_set_action sim_ex (action_ex ++ [0%float]) = Raise IndexError.
Proof.
  split.
  - destruct (ctrl_set_action_returns_iff sim_ex action_ex [0; 0]%float
                eq_refl) as (Hiff & _).
    apply Hiff. split; [simpl; lia|].
    intros i Hi. simpl in Hi. destruct i as [|[|i]]; [| |lia].
    + exists 0. split; [reflexivity|]. intros H. by destruct H.
    + exists 1. split; [reflexivity|]. intros _.
      exists (1, -1), 1, 0.25%float. repeat split; reflexivity.
  - destruct (ctrl_set_action_returns_iff sim_ex (action_ex ++ [0%float])
                [0; 0]%float eq_refl) as (_ & Hraise & _).
    apply Hraise. intros [Hlen _]. simpl in Hlen. lia.
Defined.

Lemma mocap_set_action_edges_witness :
  mocap_set_action EQ_WELD_mujoco sim_ex [0%float] = Raise ValueError.
Proof.
  destruct (mocap_set_action_edges EQ_WELD_mujoco sim_ex [0%float])
    as (_ & Hshort & _).
  apply Hshort; simpl; lia.
Defined.

Lemma mocap_set_action_unwelded_witness :
  ∃ sim', mocap_set_action EQ_WELD_mujoco sim_two_targets action_two
          = Ok sim' ∧
          mocap_pos (data sim') !! 1%nat = Some (1 + 0.5, 2 + 0, 3 + 0)%float ∧
          mocap_quat (data sim') !! 1%nat = Some (1, 0, 0, 0)%float.
Proof.
  destruct (mocap_set_action EQ_WELD_mujoco sim_two_targets action_two)
    as [sim'|e] eqn:E; [|vm_compute in E; discriminate E].
  destruct (mocap_set_action_unwelded EQ_WELD_mujoco sim_two_targets sim'
              action_two 1)
    as (p & q & dl & Hp & Hq & Hdl & Hmp & Hmq).
  - exact sim_two_targets_shapes.
  - simpl. lia.
  - simpl. lia.
  - exact sim_two_targets_unwelded.
  - exact E.
  - simpl in Hp, Hq, Hdl.
    injection Hp as <-. injection Hq as <-. injection Hdl as <-.
    exists sim'. split; [reflexivity|]. split; [exact Hmp|exact Hmq].
Defined.

Lemma reset_mocap2body_xpos_idempotent_witness :
  ∃ sim1, reset_mocap2body_xpos EQ_WELD_mujoco sim_ex = Ok sim1 ∧
          reset_mocap2body_xpos EQ_WELD_mujoco sim1 = Ok sim1.
Proof.
  destruct (reset_mocap2body_xpos EQ_WELD_mujoco sim_ex) as [sim1|e] eqn:E;
    [|vm_compute in E; discriminate E].
  destruct (reset_mocap2body_xpos_idempotent EQ_WELD_mujoco sim_ex sim1 E)
    as (Hagain & _).
  exists sim1. split; [reflexivity|exact Hagain].
Defined.

Lemma reset_mocap2body_xpos_noop_witness :
  reset_mocap2body_xpos 0 sim_ex = Ok sim_ex.
Proof.
  destruct (reset_mocap2body_xpos_noop 0 sim_ex) as (_ & Hnone & _).
  apply Hnone. simpl. constructor; [simpl; lia|constructor].
Defined.

Lemma _set_action_two_targets_witness :
  _set_action EQ_WELD_mujoco sim_two_targets [0; 1; 0; 0]%float
  = Raise ValueError.
Proof.
  apply _set_action_two_targets; [simpl; lia|reflexivity].
Defined.

Lemma _set_action_one_target_witness :
  ∃ sim' c', _set_action EQ_WELD_mujoco sim_ex [0; 1; 0; 0]%float = Ok sim' ∧
             ctrl (data sim') = Some c' ∧ length c' = 2%nat ∧
             qpos (data sim') = qpos (data sim_ex).
Proof.
  destruct (_set_action EQ_WELD_mujoco sim_ex [0; 1; 0; 0]%float)
    as [sim'|e] eqn:E; [|vm_compute in E; discriminate E].
  destruct (_set_action_one_target EQ_WELD_mujoco sim_ex sim' 0 1 0 0
              [0; 0]%float eq_refl eq_refl E)
    as (c' & Hc & Hlen & _ & _ & _ & _ & _ & Hq & _).
  exists sim', c'. split; [reflexivity|]. split; [exact Hc|].
  split; [exact Hlen|exact Hq].
Defined.

Lemma _set_action_target_pose_witness :
  ∃ sim', _set_action EQ_WELD_mujoco sim_ex [0; 1; 0; 0]%float = Ok sim' ∧
          mocap_pos (data sim')
          = [(0.5 + 0 * 0.05, 0.25 + 1 * 0.05, 1 + 0 * 0.05)%float] ∧
          mocap_quat (data sim') = [(0, 1, 0, 0)%float].
Proof.
  destruct (_set_action EQ_WELD_mujoco sim_ex [0; 1; 0; 0]%float)
    as [sim'|e] eqn:E; [|vm_compute in E; discriminate E].
  destruct (_set_action_target_pose EQ_WELD_mujoco unit unit sim_step_ex
              robot_get_obs_ex make_controller_ex (env_ex true)
              [] [] 1 2 0 2)
    as (p & q & Hp & Hq & Hset & _).
  - exact sim_ex_shapes.
  - reflexivity.
  - reflexivity.
  - exact sim_ex_resolves.
  - intros o1 o2 id' body' Hin. by apply elem_of_nil in Hin.
  - simpl in Hp, Hq. injection Hp as <-. injection Hq as <-.
    exists sim'. split; [reflexivity|]. exact (Hset _ _ _ _ _ E).
Defined.

Lemma step_returns_witness :
  ∃ env' obs info,
    step EQ_WELD_mujoco sim_step_ex robot_get_obs_ex make_controller_ex
         (env_ex true) [0; 0; 0; 0]%float
    = Ok (env', (obs, 0%float, false, info)) ∧
    info_score info = 0%float ∧ goal env' = goal (env_ex true).
Proof.
  destruct (step EQ_WELD_mujoco sim_step_ex robot_get_obs_ex
              make_controller_ex (env_ex true) [0; 0; 0; 0]%float)
    as [[env' [[[obs reward] done] info]]|e] eqn:E;
    [|vm_compute in E; discriminate E].
  destruct (step_returns EQ_WELD_mujoco unit unit sim_step_ex
              robot_get_obs_ex make_controller_ex (env_ex true) env'
              [0; 0; 0; 0]%float obs reward done info E)
    as (_ & -> & -> & Hscore & _ & Hgoal & _).
  exists env', obs, info. split; [reflexivity|]. split; [exact Hscore|].
  exact Hgoal.
Defined.

Lemma step_argument_shape_witness :
  step EQ_WELD_mujoco sim_step_ex robot_get_obs_ex make_controller_ex
       (env_ex true) [0%float]
  = step EQ_WELD_mujoco sim_step_ex robot_get_obs_ex make_controller_ex
         (env_ex true) [] ∧
  step EQ_WELD_mujoco sim_step_ex robot_get_obs_ex make_controller_ex
       (env_ex false) [0; 1; 0; 0]%float
  = Raise ValueError.
Proof.
  split.
  - destruct (step_argument_shape EQ_WELD_mujoco unit unit sim_step_ex
                robot_get_obs_ex make_controller_ex (env_ex true))
      as [Hinit _].
    apply Hinit. reflexivity.
  - destruct (step_argument_shape EQ_WELD_mujoco unit unit sim_step_ex
                robot_get_obs_ex make_controller_ex (env_ex false))
      as [_ Hrun].
    apply Hrun; [reflexivity|simpl; lia|simpl; lia|simpl; lia].
Defined.

Lemma reset_model_keeps_goal_witness :
  snd (reset_model robot_get_obs_ex robot_reset_ex sim_forward_ex
         (repeat 0%float 2) (repeat 0%float 2)
         (set_goal (env_ex false) (repeat 1%float 30)))
  = Some (obs_qp_ex ++ obs_obj_qp_ex ++ repeat 1%float 30).
Proof.
  destruct (reset_model_keeps_goal unit unit robot_get_obs_ex robot_reset_ex
              sim_forward_ex (repeat 0%float 2) (repeat 0%float 2)
              (repeat 1%float 30) (env_ex false) eq_refl)
    as (r & s & t & qp & qv & obj_qp & obj_qv & r' & _ & Hobs & Hres & _).
  injection Hobs as <- <- <- <- <- <-. exact Hres.
Defined.

Lemma evaluate_success_returns_iff_witness :
  (∃ v, evaluate_success np_mean_ref py_round_ref
          [path_ex true; path_ex false] = Ok v) ∧
  evaluate_success np_mean_ref py_round_ref [path_ex true; path_no_steps]
  = Raise IndexError.
Proof.
  split.
  - destruct (evaluate_success_returns_iff np_mean_ref py_round_ref
                [path_ex true; path_ex false]) as [Hne _].
    destruct Hne as [Hiff _]; [discriminate|].
    apply Hiff. repeat constructor; discriminate.
  - destruct (evaluate_success_returns_iff np_mean_ref py_round_ref
                [path_ex true; path_no_steps]) as [Hne _].
    destruct Hne as [_ Hiff]; [discriminate|].
    apply Hiff. intros H. apply Forall_cons in H as [_ H].
    apply Forall_cons in H as [H _]. by apply H.
Defined.

Lemma evaluate_success_last_bonus_witness :
  evaluate_success np_mean_ref py_round_ref [path_ex true]
  = evaluate_success np_mean_ref py_round_ref
      [{| score := [1; 1]%float; bonus := [PyFloat 1] |}].
Proof.
  apply evaluate_success_last_bonus.
  constructor; [|constructor]. split; reflexivity.
Defined.

Lemma reset_mocap_welds_rows_witness :
  reset_mocap_welds EQ_WELD_mujoco sim_forward_eq_ex sim_ex None
  = NoTypeError (Ok (sim_ex, None)) ∧
  ∃ rows', reset_mocap_welds EQ_WELD_mujoco sim_forward_eq_ex sim_ex eq_data_ex
           = NoTypeError (Ok (sim_ex, Some rows')) ∧
           rows' !! 0%nat = Some weld_identity ∧ length rows' = 1%nat.
Proof.
  split.
  - destruct (reset_mocap_welds_rows EQ_WELD_mujoco sim_forward_eq_ex sim_ex
                None) as [Hnone _].
    apply Hnone. by right.
  - destruct (reset_mocap_welds EQ_WELD_mujoco sim_forward_eq_ex sim_ex
                eq_data_ex) as [[[s [rows'|]]|e]|] eqn:E;
      try (vm_compute in E; discriminate E).
    destruct (reset_mocap_welds_rows EQ_WELD_mujoco sim_forward_eq_ex sim_ex
                eq_data_ex) as (_ & _ & Hsome).
    destruct (Hsome [1] [[0.5; 0; 0; 0; 1; 0; 0]%float] s rows'
                eq_refl eq_refl)
      as (Hs & Hlen & Hrows & _); [simpl; lia|exact E|].
    destruct (Hrows 0%nat _ eq_refl) as (ty & Hty & Hrow).
    injection Hty as <-. exists rows'. rewrite Hs.
    split; [reflexivity|]. split; [exact Hrow|exact Hlen].
Defined.

Lemma grasp_bounds_witness :
  (∃ sim', grasp sim_step_ex 40 sim_nine = Ok sim') ∧
  grasp sim_step_ex 40 sim_ex = Raise IndexError ∧
  rotate_ee sim_step_ex 40 sim_ex = Raise IndexError.
Proof.
  split; [|split].
  - destruct (grasp_bounds sim_step_ex (fun s => eq_refl) 40 sim_nine)
      as (Hrun & _).
    destruct Hrun as (sim' & Hrun & _); [simpl; lia|].
    exists sim'. exact Hrun.
  - destruct (grasp_bounds sim_step_ex (fun s => eq_refl) 40 sim_ex)
      as (_ & _ & Hshort & _).
    apply Hshort; simpl; lia.
  - destruct (grasp_bounds sim_step_ex (fun s => eq_refl) 40 sim_ex)
      as (_ & _ & _ & Hshort).
    apply Hshort; simpl; lia.
Defined.

Lemma goal_space_bounds_witness :
  goal_space (observation_space_init 60)
  = Ok {| low := repeat (-8)%float 30; high := repeat 8%float 30 |} ∧
  goal_space (observation_space_init 0) = Raise IndexError.
Proof.
  split.
  - destruct goal_space_bounds as (_ & _ & Hinit).
    apply (Hinit 60%nat). lia.
  - destruct goal_space_bounds as (Hnil & _).
    apply Hnil. reflexivity.
Defined.
